(** * GalaxyCanvas: particle lifecycle, gesture smoothing and status machine

  A shallow embedding of [src/components/GalaxyCanvas.tsx].

  Numbers.  The GLSL [float]s of the vertex shader and the JavaScript
  numbers of the component are modelled by the real numbers [R]: the
  arithmetic is the one written in the source, without rounding, NaN or
  infinities.  The statements below are therefore statements about the
  formulas of the program, evaluated exactly.

  Layout.
  - [Glsl]      the shader built-ins used by the vertex shader;
  - [Shader]    the body of [vertexShader]'s [main];
  - [Field]     the particle part of [initScene];
  - [Canvas]    the closure state of the component, [startVision],
                [predictWebcam], [animate] and the event loop that
                calls them. *)

From Stdlib Require Import Reals Lra Lia ZArith List String Bool.
Import ListNotations.

#[local] Open Scope R_scope.

(* ------------------------------------------------------------------ *)
(** ** GLSL built-ins *)

Module Glsl.

(** [floor(x)]: the largest integer not above [x], as a float. *)
Definition floor (x : R) : R := IZR (Zfloor x).

(** [mod(x, y) = x - y * floor(x / y)] (GLSL ES 1.00, section 8.3). *)
Definition glsl_mod (x y : R) : R := x - y * floor (x / y).

(** [clamp(x, lo, hi) = min(max(x, lo), hi)]. *)
Definition clamp (x lo hi : R) : R := Rmin (Rmax x lo) hi.

(** [smoothstep(edge0, edge1, x)]: Hermite interpolation of the clamped
    ratio. *)
Definition smoothstep (edge0 edge1 x : R) : R :=
  let t := clamp ((x - edge0) / (edge1 - edge0)) 0 1 in
  t * t * (3 - 2 * t).

End Glsl.

(* ------------------------------------------------------------------ *)
(** ** The vertex shader *)

Module Shader.
Import Glsl.

Definition vec3 : Type := (R * R * R)%type.

(** [float maxRadius = 6.0;] *)
Definition maxRadius : R := 6.

(** [float t = uTime * aSpeed * 0.8 + aOffset;] *)
Definition t (uTime aSpeed aOffset : R) : R := uTime * aSpeed * 0.8 + aOffset.

(** [float r = mod(t, maxRadius);] *)
Definition r (uTime aSpeed aOffset : R) : R :=
  glsl_mod (t uTime aSpeed aOffset) maxRadius.

(** [float twistStrength = 2.0; float angle = dist * twistStrength * 0.2;] *)
Definition twistStrength : R := 2.
Definition angle (dist : R) : R := dist * twistStrength * 0.2.

(** [vec3 pos = aDirection * dist; pos.xz = rot * pos.xz;
    pos.y += sin(uTime * 2.0 + aOffset) * 0.1;]
    with [mat2 rot = mat2(c, -s, s, c)] given by columns [(c, -s)] and
    [(s, c)]. *)
Definition pos (uTime aOffset : R) (aDirection : vec3) (dist : R) : vec3 :=
  let '(dx, dy, dz) := aDirection in
  let c := cos (angle dist) in
  let s := sin (angle dist) in
  let px := dx * dist in
  let py := dy * dist in
  let pz := dz * dist in
  (c * px + s * pz,
   py + sin (uTime * 2 + aOffset) * 0.1,
   - s * px + c * pz).

(** [float growth = smoothstep(0.0, 1.0, dist);] *)
Definition growth (dist : R) : R := smoothstep 0 1 dist.

(** [float normalizedR = r / maxRadius;] *)
Definition normalizedR (r : R) : R := r / maxRadius.

(** [float fadeIn = smoothstep(0.0, 0.1, normalizedR);] *)
Definition fadeIn (r : R) : R := smoothstep 0 0.1 (normalizedR r).

(** [float fadeOut = 1.0 - smoothstep(0.7, 1.0, normalizedR);] *)
Definition fadeOut (r : R) : R := 1 - smoothstep 0.7 1 (normalizedR r).

(** [vAlpha = fadeIn * fadeOut;] *)
Definition vAlpha (r : R) : R := fadeIn r * fadeOut r.

(** What [main] hands on for one particle, before the camera matrices
    are applied: the local position, the growth factor of the point size
    and the opacity. *)
Record vertex := mkVertex {
  v_pos : vec3;
  v_growth : R;
  v_alpha : R
}.

Definition main (uTime aOffset aSpeed : R) (aDirection : vec3) : vertex :=
  let rr := r uTime aSpeed aOffset in
  let dist := rr in
  {| v_pos := pos uTime aOffset aDirection dist;
     v_growth := growth dist;
     v_alpha := vAlpha rr |}.

End Shader.

(* ------------------------------------------------------------------ *)
(** ** Particle groups of [initScene] *)

Module Field.

#[local] Open Scope string_scope.

(** [const totalParticles = 1400;] *)
Definition totalParticles : R := 1400.

Definition fonts : list string :=
  [ "Ma Shan Zheng"; "ZCOOL XiaoWei"; "Long Cang"; "Zhi Mang Xing";
    "Liu Jian Mao Cao"; "Noto Serif SC" ].

Record item := mkItem { type : string; value : string; color : string }.

(** The mixed content array: the letters of the name and the shapes. *)
Definition items : list item :=
  [ mkItem "text" "H" "#FFD700"; mkItem "text" "u" "#FFD700";
    mkItem "text" "a" "#FFD700"; mkItem "text" "n" "#FFD700";
    mkItem "text" "g" "#FFD700";
    mkItem "text" "X" "#FF69B4"; mkItem "text" "i" "#FF69B4";
    mkItem "text" "n" "#FF69B4";
    mkItem "text" "Y" "#00FFFF"; mkItem "text" "i" "#00FFFF";
    mkItem "text" "n" "#00FFFF"; mkItem "text" "g" "#00FFFF";
    mkItem "shape" "star" "#FF8C00"; mkItem "shape" "heart" "#FF0055";
    mkItem "shape" "circle" "#FFFFFF"; mkItem "shape" "diamond" "#9D00FF";
    mkItem "shape" "star" "#32CD32"; mkItem "shape" "circle" "#00BFFF" ].

(** The three arrays filled by the inner loop.  [directions] is flat:
    three numbers per particle. *)
Record buffers := mkBuffers {
  directions : list R;
  offsets : list R;
  speeds : list R
}.

Definition empty : buffers := mkBuffers [] [] [].

(** [Math.random()] is an oracle: call number [k] returns [rnd k]. *)
Definition random := nat -> R.

(** [for (let i = 0; i < count; i++) { ... }] with a real [count]; [k]
    counts the calls of [Math.random()] made so far.  [None] when the
    fuel is used up before the test fails. *)
Fixpoint forLoop (fuel : nat) (rnd : random) (count : R)
    (i k : nat) (b : buffers) : option (buffers * nat) :=
  match fuel with
  | O => None
  | S fuel' =>
      if Rlt_dec (INR i) count then
        let u := rnd k in
        let v := rnd (k + 1)%nat in
        let theta := 2 * PI * u in
        let phi := acos (2 * v - 1) in
        let x := sin phi * cos theta in
        let y := sin phi * sin theta in
        let z := cos phi in
        let b' :=
          {| directions := directions b ++ [x; y; z];
             offsets := offsets b ++ [rnd (k + 2)%nat * 6];
             speeds := speeds b ++ [0.3 + rnd (k + 3)%nat * 0.4] |} in
        forLoop fuel' rnd count (S i) (k + 4)%nat b'
      else Some (b, k)
  end.

(** One particle system: the item, the font drawn for a text item and the
    attribute arrays of its geometry. *)
Record group := mkGroup {
  g_index : nat;
  g_item : item;
  g_font : option string;
  g_buffers : buffers
}.

(** The body of [items.forEach((item, index) => ...)]. *)
Definition forEachBody (fuel : nat) (rnd : random) (all : list item)
    (it : item) (index k : nat) : option (group * nat) :=
  let count := totalParticles / INR (List.length all) in
  match forLoop fuel rnd count 0 k empty with
  | None => None
  | Some (b, k1) =>
      if String.eqb (type it) "text" then
        let randomFont :=
          nth_error fonts
            (Z.to_nat (Zfloor (rnd k1 * INR (List.length fonts)))) in
        Some (mkGroup index it randomFont b, S k1)
      else Some (mkGroup index it None b, k1)
  end.

Fixpoint forEach (fuel : nat) (rnd : random) (all rest : list item)
    (index k : nat) : option (list group) :=
  match rest with
  | [] => Some []
  | it :: rest' =>
      match forEachBody fuel rnd all it index k with
      | None => None
      | Some (g, k1) =>
          match forEach fuel rnd all rest' (S index) k1 with
          | None => None
          | Some gs => Some (g :: gs)
          end
      end
  end.

(** The particle systems added to [planetGroup] by [initScene]. *)
Definition initScene (fuel : nat) (rnd : random) : option (list group) :=
  forEach fuel rnd items items 0 0.

(** Number of points of a group: the [aOffset] attribute has one entry
    per particle. *)
Definition particleCount (g : group) : nat :=
  List.length (offsets (g_buffers g)).

Definition totalCount (gs : list group) : nat :=
  fold_right (fun g n => (particleCount g + n)%nat) 0%nat gs.

End Field.

(* ------------------------------------------------------------------ *)
(** ** The component: closure state, vision pipeline and render loop *)

Module Canvas.

#[local] Open Scope string_scope.

(** [types.ts]: a landmark and the result of one detection.
    [results.landmarks] is tested for truthiness before use, hence the
    [option]. *)
Record HandLandmark := mkLandmark { x : R; y : R; z : R }.

Record VisionResult := mkResult {
  landmarks : option (list (list HandLandmark))
}.

(** The values given to [setStatus]. *)
Definition INITIALIZING : string := "INITIALIZING...".
Definition SYSTEM_READY : string := "SYSTEM READY".
Definition CAMERA_ERROR : string := "CAMERA ERROR".
Definition HAND_LOCKED : string := "HAND LOCKED".
Definition SCANNING : string := "SCANNING SPACE...".

(** The "Interaction State" variables of the effect closure. *)
Record Interaction := mkInteraction {
  targetScale : R;
  currentScale : R;
  targetTiltX : R;
  targetTiltY : R;
  currentTiltX : R;
  currentTiltY : R
}.

(** What [animate] writes into the scene graph: the scale vector and the
    two rotations of [manipulationGroup], the rotations of [planetGroup],
    of the earth and of its clouds, and the [uTime] uniform shared by the
    particle systems. *)
Record Scene := mkScene {
  scale : R * R * R;
  rotation_x : R;
  rotation_y : R;
  planet_rotation_y : R;
  earth_rotation_y : R;
  cloud_rotation_y : R;
  uTime : R
}.

(** Where the vision pipeline stands: which callback of [startVision] or
    [predictWebcam] is waiting to be run by the event loop. *)
Inductive Waiting :=
| AwaitLandmarker    (* await initializeHandLandmarker() *)
| AwaitStream        (* await getUserMedia({ video: true }) *)
| AwaitLoadedData    (* the "loadeddata" listener is registered *)
| AwaitFrame         (* requestAnimationFrame(predictWebcam) *)
| Nothing.           (* no callback of the pipeline is registered *)

(** The closure.  [statusLog] and [detectLog] are ghost fields: the
    arguments of every [setStatus] call, and the [(currentTime, now)]
    pair of every [detectForVideo] call, oldest first. *)
Record Closure := mkClosure {
  status : string;
  isLoading : bool;
  handLandmarker : bool;          (* true when not null *)
  lastVideoTime : R;
  interaction : Interaction;
  scene : Scene;
  waiting : Waiting;
  statusLog : list string;
  detectLog : list (R * R)
}.

Definition initial : Closure :=
  {| status := INITIALIZING;
     isLoading := true;
     handLandmarker := false;
     lastVideoTime := -1;
     interaction := mkInteraction 1 1 0 0 0 0;
     scene := mkScene (1, 1, 1) 0 0 0 0 0 0;
     waiting := AwaitLandmarker;
     statusLog := [];
     detectLog := [] |}.

(** *** Field updates *)

Definition setStatus (v : string) (s : Closure) : Closure :=
  mkClosure v (isLoading s) (handLandmarker s) (lastVideoTime s)
    (interaction s) (scene s) (waiting s) (statusLog s ++ [v]) (detectLog s).

Definition setIsLoading (v : bool) (s : Closure) : Closure :=
  mkClosure (status s) v (handLandmarker s) (lastVideoTime s)
    (interaction s) (scene s) (waiting s) (statusLog s) (detectLog s).

Definition set_handLandmarker (v : bool) (s : Closure) : Closure :=
  mkClosure (status s) (isLoading s) v (lastVideoTime s)
    (interaction s) (scene s) (waiting s) (statusLog s) (detectLog s).

Definition set_lastVideoTime (v : R) (s : Closure) : Closure :=
  mkClosure (status s) (isLoading s) (handLandmarker s) v
    (interaction s) (scene s) (waiting s) (statusLog s) (detectLog s).

Definition set_interaction (v : Interaction) (s : Closure) : Closure :=
  mkClosure (status s) (isLoading s) (handLandmarker s) (lastVideoTime s)
    v (scene s) (waiting s) (statusLog s) (detectLog s).

Definition set_scene (v : Scene) (s : Closure) : Closure :=
  mkClosure (status s) (isLoading s) (handLandmarker s) (lastVideoTime s)
    (interaction s) v (waiting s) (statusLog s) (detectLog s).

Definition set_waiting (v : Waiting) (s : Closure) : Closure :=
  mkClosure (status s) (isLoading s) (handLandmarker s) (lastVideoTime s)
    (interaction s) (scene s) v (statusLog s) (detectLog s).

Definition set_targetScale (v : R) (i : Interaction) : Interaction :=
  mkInteraction v (currentScale i) (targetTiltX i) (targetTiltY i)
    (currentTiltX i) (currentTiltY i).

Definition set_targetTiltX (v : R) (i : Interaction) : Interaction :=
  mkInteraction (targetScale i) (currentScale i) v (targetTiltY i)
    (currentTiltX i) (currentTiltY i).

Definition set_targetTiltY (v : R) (i : Interaction) : Interaction :=
  mkInteraction (targetScale i) (currentScale i) (targetTiltX i) v
    (currentTiltX i) (currentTiltY i).

(** [handLandmarker.detectForVideo(videoRef.current, now)]: the call is
    recorded; what it returns is supplied by the environment. *)
Definition detectForVideo (currentTime now : R) (s : Closure) : Closure :=
  mkClosure (status s) (isLoading s) (handLandmarker s) (lastVideoTime s)
    (interaction s) (scene s) (waiting s) (statusLog s)
    (detectLog s ++ [(currentTime, now)]).

(** [requestAnimationFrame(predictWebcam)] *)
Definition requestAnimationFrame_predictWebcam (s : Closure) : Closure :=
  set_waiting AwaitFrame s.

(** A callback either returns or dies on a [TypeError]; the writes made
    before the error stay. *)
Inductive completion :=
| Returned (s : Closure)
| TypeError (s : Closure).

Definition closure_of (c : completion) : Closure :=
  match c with Returned s => s | TypeError s => s end.

(** *** [predictWebcam] *)

(** Lines 490-492: the pinch distance and its remap. *)
Definition pinchDist (thumb indexFinger : HandLandmark) : R :=
  sqrt ((x thumb - x indexFinger) ^ 2 + (y thumb - y indexFinger) ^ 2).

Definition clampDist (dist : R) : R := Rmax 0.02 (Rmin 0.3 dist).

Definition pinchScale (dist : R) : R :=
  0.5 + ((clampDist dist - 0.02) / 0.28) * 4.5.

(** [video] is [None] when [videoRef.current] is null and the video's
    [currentTime] otherwise; [now] is [performance.now()]; [results] is
    what the detector returns if it is called. *)
Definition predictWebcam (video : option R) (now : R)
    (results : VisionResult) (s : Closure) : completion :=
  if negb (handLandmarker s) then Returned s else
  match video with
  | None => Returned s
  | Some currentTime =>
      if Req_dec_T currentTime (lastVideoTime s) then
        Returned (requestAnimationFrame_predictWebcam s)
      else
        let s := set_lastVideoTime currentTime s in
        let s := detectForVideo currentTime now s in
        match landmarks results with
        | Some (hand :: _) =>
            let s := setStatus HAND_LOCKED s in
            (* Pinch Scale *)
            match nth_error hand 4, nth_error hand 8 with
            | Some thumb, Some indexFinger =>
                let dist := pinchDist thumb indexFinger in
                let s :=
                  set_interaction
                    (set_targetScale (pinchScale dist) (interaction s)) s in
                (* Rotation *)
                match nth_error hand 9 with
                | Some handCenter =>
                    let s :=
                      set_interaction
                        (set_targetTiltY ((x handCenter - 0.5) * -3)
                           (interaction s)) s in
                    let s :=
                      set_interaction
                        (set_targetTiltX ((y handCenter - 0.5) * 3)
                           (interaction s)) s in
                    Returned (requestAnimationFrame_predictWebcam s)
                | None => TypeError s
                end
            | _, _ => TypeError s
            end
        | _ =>
            Returned
              (requestAnimationFrame_predictWebcam (setStatus SCANNING s))
        end
  end.

(** *** [startVision] *)

(** The [catch] block. *)
Definition startVision_catch (s : Closure) : Closure :=
  setIsLoading false (setStatus CAMERA_ERROR s).

(** The "loadeddata" listener. *)
Definition onLoadedData (video : option R) (now : R)
    (results : VisionResult) (s : Closure) : completion :=
  predictWebcam video now results
    (setStatus SYSTEM_READY (setIsLoading false s)).

(** *** [animate] *)

(** [current += (target - current) * lerpFactor] *)
Definition lerpFactor : R := 0.1.

Definition smooth (target current : R) : R :=
  current + (target - current) * lerpFactor.

Definition animate (now : R) (s : Closure) : Closure :=
  let time := now * 0.001 in
  let i := interaction s in
  let currentScale' := smooth (targetScale i) (currentScale i) in
  let currentTiltX' := smooth (targetTiltX i) (currentTiltX i) in
  let currentTiltY' := smooth (targetTiltY i) (currentTiltY i) in
  let i' :=
    mkInteraction (targetScale i) currentScale' (targetTiltX i)
      (targetTiltY i) currentTiltX' currentTiltY' in
  let sc :=
    {| scale := (currentScale', currentScale', currentScale');
       rotation_x := currentTiltX';
       rotation_y := currentTiltY';
       planet_rotation_y := time * 0.1;
       earth_rotation_y := time * 0.05;
       cloud_rotation_y := time * 0.07;
       uTime := time |} in
  set_scene sc (set_interaction i' s).

(** *** The event loop *)

(** What the browser can deliver to the component.  The two promises of
    [startVision] resolve or reject; the video fires "loadeddata"; an
    animation frame runs [predictWebcam] or [animate]. *)
Inductive event :=
| LandmarkerResolved (notNull : bool)
| LandmarkerRejected
| StreamResolved (videoMounted : bool)
| StreamRejected
| LoadedData (video : option R) (now : R) (results : VisionResult)
| DetectionFrame (video : option R) (now : R) (results : VisionResult)
| RenderFrame (now : R).

(** One turn of the event loop.  A callback runs only if it is
    registered; a callback that runs is consumed before its body. *)
Definition dispatch (s : Closure) (e : event) : Closure :=
  match e, waiting s with
  | LandmarkerResolved notNull, AwaitLandmarker =>
      set_waiting AwaitStream (set_handLandmarker notNull s)
  | LandmarkerRejected, AwaitLandmarker =>
      startVision_catch (set_waiting Nothing s)
  | StreamResolved videoMounted, AwaitStream =>
      set_waiting (if videoMounted then AwaitLoadedData else Nothing) s
  | StreamRejected, AwaitStream =>
      startVision_catch (set_waiting Nothing s)
  | LoadedData video now results, AwaitLoadedData =>
      closure_of (onLoadedData video now results (set_waiting Nothing s))
  | DetectionFrame video now results, AwaitFrame =>
      closure_of (predictWebcam video now results (set_waiting Nothing s))
  | RenderFrame now, _ => animate now s
  | _, _ => s
  end.

Definition run (s : Closure) (es : list event) : Closure :=
  fold_left dispatch es s.

(** [results.landmarks && results.landmarks.length > 0] *)
Definition hasHand (results : VisionResult) : bool :=
  match landmarks results with
  | Some (_ :: _) => true
  | _ => false
  end.

(** The scale that is applied to the scene: the three components of the
    scale vector are the current scale, which lies between 0.5 and 5 as
    does its target. *)
Definition scale_in_range (s : Closure) : Prop :=
  0.5 <= targetScale (interaction s) <= 5 /\
  0.5 <= currentScale (interaction s) <= 5 /\
  scale (scene s) =
  (currentScale (interaction s), currentScale (interaction s),
   currentScale (interaction s)).

(** No two detector calls in a row carry the same video time. *)
Fixpoint fresh_frames (times : list R) : Prop :=
  match times with
  | a :: (b :: _) as rest => a <> b /\ fresh_frames rest
  | _ => True
  end.

(** The video times submitted to the detector, oldest first. *)
Definition submitted (s : Closure) : list R := map fst (detectLog s).

(** The stored video time is the last one submitted ([-1] before the
    first call), and no call repeats the one before it. *)
Definition frames_recorded (s : Closure) : Prop :=
  fresh_frames (submitted s) /\
  last (submitted s) (-1) = lastVideoTime s.

(** What the status can be at each stage of the vision pipeline. *)
Definition status_by_stage (s : Closure) : Prop :=
  match waiting s with
  | AwaitLandmarker | AwaitStream | AwaitLoadedData =>
      status s = INITIALIZING /\ statusLog s = []
  | AwaitFrame =>
      status s = SYSTEM_READY \/ status s = HAND_LOCKED \/
      status s = SCANNING
  | Nothing => True
  end.

(** Iterating the smoothing step against a fixed target. *)
Fixpoint smooth_iter (n : nat) (target current : R) : R :=
  match n with
  | O => current
  | S n' => smooth_iter n' target (smooth target current)
  end.

End Canvas.

(* ------------------------------------------------------------------ *)
(** ** Sample inputs *)

Module Samples.
Import Canvas.

Definition origin : HandLandmark := mkLandmark 0 0 0.

(** A landmark set of the detector: 21 points, of which the thumb tip
    (index 4), the index fingertip (index 8) and the palm center (index 9)
    are given. *)
Definition handOf (thumb indexFinger handCenter : HandLandmark)
  : list HandLandmark :=
  [ origin; origin; origin; origin; thumb; origin; origin; origin;
    indexFinger; handCenter ] ++ repeat origin 11.

(** Thumb and index fingertip [d] apart on a horizontal line, palm at
    [(px, py)]. *)
Definition pinchedHand (d px py : R) : list HandLandmark :=
  handOf (mkLandmark 0.5 0.5 0) (mkLandmark (0.5 + d) 0.5 0)
    (mkLandmark px py 0).

Definition seen (hand : list HandLandmark) : VisionResult :=
  mkResult (Some [hand]).

Definition nobody : VisionResult := mkResult (Some []).

(** The component once the landmarker is loaded and the stream acquired,
    waiting for the first video frame. *)
Definition streaming : Closure :=
  run initial [LandmarkerResolved true; StreamResolved true].

(** The same component after a first frame that shows a pinch 0.30 wide:
    the target scale is 5 while the current scale is still 1. *)
Definition opened : Closure :=
  dispatch streaming (LoadedData (Some 0) 16 (seen (pinchedHand 0.3 0.5 0.5))).

(** The component after a first frame at video time 1 that shows nobody:
    the detector has been called once, for that frame. *)
Definition scanned : Closure :=
  dispatch streaming (LoadedData (Some 1) 16 nobody).

(** [n] render frames in a row. *)
Definition renderFrames (nows : list R) : list event := map RenderFrame nows.

End Samples.

(* ------------------------------------------------------------------ *)
(** ** Point size and the fragment shader *)

Module Raster.
Import Glsl Shader.

Definition vec2 : Type := (R * R)%type.
Definition vec4 : Type := (R * R * R * R)%type.

(** [float sizeBase = 250.0;] *)
Definition sizeBase : R := 250.

(** [gl_PointSize = sizeBase * (0.5 + growth * 0.5) * (1.0 / -mvPosition.z);]
    as a function of the radius and of the view-space depth. *)
Definition gl_PointSize (dist mvPosition_z : R) : R :=
  sizeBase * (0.5 + growth dist * 0.5) * (1 / - mvPosition_z).

(** [vec2 uv = vec2(gl_PointCoord.x, 1.0 - gl_PointCoord.y);] *)
Definition uv (gl_PointCoord : vec2) : vec2 :=
  (fst gl_PointCoord, 1 - snd gl_PointCoord).

(** [main] of [fragmentShader].  The sampler is a function of the texture
    coordinate; [None] is [discard]. *)
Definition fragmentShader (uTexture : vec2 -> vec4) (uColor : vec3)
    (vAlpha : R) (gl_PointCoord : vec2) : option vec4 :=
  let '(tr, tg, tb, ta) := uTexture (uv gl_PointCoord) in
  if Rlt_dec ta 0.05 then None
  else
    let '(cr, cg, cb) := uColor in
    let glowColor := (cr * 2.2, cg * 2.2, cb * 2.2) in
    let '(gr, gg, gb) := glowColor in
    Some (gr * tr * vAlpha, gg * tg * vAlpha, gb * tb * vAlpha,
          1 * ta * vAlpha).

(** A texel with all four channels in [0, 1]. *)
Definition unit_color4 (c : vec4) : Prop :=
  let '(cr, cg, cb, ca) := c in
  0 <= cr <= 1 /\ 0 <= cg <= 1 /\ 0 <= cb <= 1 /\ 0 <= ca <= 1.

Definition red (c : vec4) : R := fst (fst (fst c)).
Definition green (c : vec4) : R := snd (fst (fst c)).
Definition blue (c : vec4) : R := snd (fst c).
Definition alpha (c : vec4) : R := snd c.

Definition unit_color3 (c : vec3) : Prop :=
  let '(cr, cg, cb) := c in
  0 <= cr <= 1 /\ 0 <= cg <= 1 /\ 0 <= cb <= 1.

End Raster.

(* ------------------------------------------------------------------ *)
(** ** The star outline of [createShapeTexture] *)

Module Texture.

(** The calls made on the 2D context while the outline is built. *)
Inductive call :=
| moveTo (x y : R)
| lineTo (x y : R).

(** [const radius = 120;] and, for the star,
    [spikes = 5; outerRadius = radius; innerRadius = radius / 2;]. *)
Definition radius : R := 120.
Definition spikes : nat := 5.
Definition outerRadius : R := radius.
Definition innerRadius : R := radius / 2.

(** The body of [for (let i = 0; i < spikes; i++)], run [todo] more
    times: two [lineTo] per turn, the angle advanced by [step] after
    each.  Returns the calls and the final angle. *)
Fixpoint starLoop (todo : nat) (centerX centerY step rot : R)
  : list call * R :=
  match todo with
  | O => ([], rot)
  | S todo' =>
      let x1 := centerX + cos rot * outerRadius in
      let y1 := centerY + sin rot * outerRadius in
      let rot1 := rot + step in
      let x2 := centerX + cos rot1 * innerRadius in
      let y2 := centerY + sin rot1 * innerRadius in
      let rot2 := rot1 + step in
      let '(rest, rot') := starLoop todo' centerX centerY step rot2 in
      (lineTo x1 y1 :: lineTo x2 y2 :: rest, rot')
  end.

(** The [shape === 'star'] branch: the calls between [beginPath] and
    [fill]. *)
Definition starPath (centerX centerY : R) : list call :=
  let rot := PI / 2 * 3 in
  let step := PI / INR spikes in
  [moveTo centerX (centerY - outerRadius)] ++
  fst (starLoop spikes centerX centerY step rot) ++
  [lineTo centerX (centerY - outerRadius)].

Definition endpoint (c : call) : R * R :=
  match c with moveTo x y => (x, y) | lineTo x y => (x, y) end.

(** The point lies on the circle of radius [rad] around the center. *)
Definition on_circle (centerX centerY rad : R) (p : R * R) : Prop :=
  (fst p - centerX) ^ 2 + (snd p - centerY) ^ 2 = rad ^ 2.

(** The points lie in turn on the outer and on the inner circle. *)
Fixpoint alternating (centerX centerY : R) (ps : list (R * R)) : Prop :=
  match ps with
  | [] => True
  | a :: b :: rest =>
      on_circle centerX centerY outerRadius a /\
      on_circle centerX centerY innerRadius b /\
      alternating centerX centerY rest
  | _ => False
  end.

End Texture.

(* ------------------------------------------------------------------ *)
(** ** Predicates on runs of the component *)

Module Runs.
Import Canvas.

(** The particle directions, three numbers at a time. *)
Fixpoint triples (l : list R) : list (R * R * R) :=
  match l with
  | a :: b :: c :: rest => (a, b, c) :: triples rest
  | _ => []
  end.

Definition unit_vector (v : R * R * R) : Prop :=
  let '(a, b, c) := v in a ^ 2 + b ^ 2 + c ^ 2 = 1.

(** The direction array holds one unit vector per particle. *)
Definition directions_ok (b : Field.buffers) : Prop :=
  List.length (Field.directions b) = (3 * List.length (Field.offsets b))%nat /\
  Forall unit_vector (triples (Field.directions b)).

(** Offsets lie in the cycle and speeds in their band. *)
Definition ranges_ok (b : Field.buffers) : Prop :=
  List.length (Field.speeds b) = List.length (Field.offsets b) /\
  Forall (fun o => 0 <= o < Shader.maxRadius) (Field.offsets b) /\
  Forall (fun v => 0.3 <= v < 0.7) (Field.speeds b).

(** A text group has one of the fonts, a shape group has none. *)
Definition font_ok (g : Field.group) : Prop :=
  if String.eqb (Field.type (Field.g_item g)) "text"
  then exists f, Field.g_font g = Some f /\ In f Field.fonts
  else Field.g_font g = None.

(** The palm center of the first hand, when there is one, lies in the
    video frame (normalized coordinates). *)
Definition palm_in_frame (results : VisionResult) : Prop :=
  match landmarks results with
  | Some (hand :: _) =>
      match nth_error hand 9 with
      | Some handCenter =>
          0 <= x handCenter <= 1 /\ 0 <= y handCenter <= 1
      | None => True
      end
  | _ => True
  end.

Definition event_in_frame (e : event) : Prop :=
  match e with
  | LoadedData _ _ results => palm_in_frame results
  | DetectionFrame _ _ results => palm_in_frame results
  | _ => True
  end.

(** The four tilt values lie within 1.5 radians of zero. *)
Definition tilt_in_range (s : Closure) : Prop :=
  let i := interaction s in
  -1.5 <= targetTiltX i <= 1.5 /\ -1.5 <= targetTiltY i <= 1.5 /\
  -1.5 <= currentTiltX i <= 1.5 /\ -1.5 <= currentTiltY i <= 1.5.

(** How many events of a run invoke [predictWebcam]. *)
Fixpoint invocations (es : list event) : nat :=
  match es with
  | [] => 0
  | LoadedData _ _ _ :: es' => S (invocations es')
  | DetectionFrame _ _ _ :: es' => S (invocations es')
  | _ :: es' => invocations es'
  end.


(** The loading overlay is up exactly while the status is the initial
    one; the detection loop does not run under the overlay. *)
Definition loading_stage (s : Closure) : Prop :=
  isLoading s = true /\ status s = INITIALIZING /\ waiting s <> AwaitFrame \/
  isLoading s = false /\ status s <> INITIALIZING.


(** The three targets of the interaction state. *)
Definition targets (s : Closure) : R * R * R :=
  (targetScale (interaction s), targetTiltX (interaction s),
   targetTiltY (interaction s)).

(** The three smoothed values of the interaction state. *)
Definition currents (s : Closure) : R * R * R :=
  (currentScale (interaction s), currentTiltX (interaction s),
   currentTiltY (interaction s)).

End Runs.

(* ------------------------------------------------------------------ *)
(** * Properties *)

(** ** Shader built-ins *)

Section GlslFacts.
Import Glsl.

Lemma floor_bound (x : R) : floor x <= x < floor x + 1.
Proof. unfold floor. apply Zfloor_bound. Qed.

Lemma glsl_mod_range (x y : R) : 0 < y -> 0 <= glsl_mod x y < y.
Proof.
  intros Hy. unfold glsl_mod.
  destruct (floor_bound (x / y)) as [Hlo Hhi].
  assert (Hx : x = y * (x / y)) by (field; lra).
  split.
  - apply Rmult_le_compat_l with (r := y) in Hlo; lra.
  - apply Rmult_lt_compat_l with (r := y) in Hhi; lra.
Qed.

Lemma clamp_below (x lo hi : R) : lo <= hi -> x <= lo -> clamp x lo hi = lo.
Proof.
  intros Hlh Hx. unfold clamp, Rmin, Rmax.
  repeat destruct Rle_dec; lra.
Qed.

Lemma clamp_above (x lo hi : R) : lo <= hi -> hi <= x -> clamp x lo hi = hi.
Proof.
  intros Hlh Hx. unfold clamp, Rmin, Rmax.
  repeat destruct Rle_dec; lra.
Qed.

Lemma clamp_inside (x lo hi : R) : lo <= x <= hi -> clamp x lo hi = x.
Proof.
  intros Hx. unfold clamp, Rmin, Rmax.
  repeat destruct Rle_dec; lra.
Qed.

Lemma clamp_range (x lo hi : R) : lo <= hi -> lo <= clamp x lo hi <= hi.
Proof.
  intros Hlh. unfold clamp, Rmin, Rmax.
  repeat destruct Rle_dec; lra.
Qed.

(** Hermite polynomial on the unit interval. *)
Lemma hermite_range (u : R) : 0 <= u <= 1 -> 0 <= u * u * (3 - 2 * u) <= 1.
Proof.
  intros Hu. split.
  - apply Rmult_le_pos; [nra | lra].
  - assert (H : 1 - u * u * (3 - 2 * u) = (1 - u) * (1 - u) * (1 + 2 * u))
      by ring.
    assert (0 <= (1 - u) * (1 - u) * (1 + 2 * u))
      by (apply Rmult_le_pos; [nra | lra]).
    lra.
Qed.

Lemma smoothstep_range (e0 e1 v : R) : 0 <= smoothstep e0 e1 v <= 1.
Proof.
  unfold smoothstep. apply hermite_range. apply clamp_range. lra.
Qed.

Lemma smoothstep_below (e0 e1 v : R) :
  e0 < e1 -> v <= e0 -> smoothstep e0 e1 v = 0.
Proof.
  intros He Hv. unfold smoothstep.
  rewrite clamp_below; [ring | lra |].
  assert (0 < / (e1 - e0)) by (apply Rinv_0_lt_compat; lra).
  unfold Rdiv. nra.
Qed.

Lemma smoothstep_above (e0 e1 v : R) :
  e0 < e1 -> e1 <= v -> smoothstep e0 e1 v = 1.
Proof.
  intros He Hv. unfold smoothstep.
  rewrite clamp_above; [ring | lra |].
  apply Rmult_le_reg_r with (r := e1 - e0); [lra |].
  unfold Rdiv. rewrite Rmult_assoc, Rinv_l; lra.
Qed.

Lemma smoothstep_inside (e0 e1 v : R) :
  e0 < e1 -> e0 <= v <= e1 ->
  smoothstep e0 e1 v =
  let u := (v - e0) / (e1 - e0) in u * u * (3 - 2 * u).
Proof.
  intros He Hv. unfold smoothstep.
  rewrite clamp_inside; [reflexivity |].
  assert (Hi : 0 < / (e1 - e0)) by (apply Rinv_0_lt_compat; lra).
  split.
  - unfold Rdiv. apply Rmult_le_pos; lra.
  - apply Rmult_le_reg_r with (r := e1 - e0); [lra |].
    unfold Rdiv. rewrite Rmult_assoc, Rinv_l; lra.
Qed.

End GlslFacts.

(** ** The particle lifecycle *)

Section Lifecycle.
Import Glsl Shader.

(** A particle that has not started yet (negative time) is wrapped
    from the far side of the cycle. *)
Example r_negative_time : r (-1) 0.5 0 = 5.6.
Proof.
unfold r, t, glsl_mod, floor, maxRadius.
rewrite (Zfloor_eq (-1)%Z); lra.
Qed.

Example r_after_one_cycle : r 10 0.5 3 = 1.
Proof.
unfold r, t, glsl_mod, floor, maxRadius.
rewrite (Zfloor_eq 1%Z); lra.
Qed.

(** C1: for every time [uTime] (negative ones included), speed and phase
    offset, the wrapped radius [r = mod(uTime * aSpeed * 0.8 + aOffset,
    maxRadius)] satisfies [0 <= r < maxRadius], with [maxRadius = 6]. *)
Theorem wrapped_radius_in_cycle (uTime aSpeed aOffset : R) :
  0 <= r uTime aSpeed aOffset < maxRadius /\ maxRadius = 6.
Proof.
split; [| reflexivity].
unfold r. apply glsl_mod_range. unfold maxRadius. lra.
Qed.

(** The three regimes of the opacity along the cycle. *)

Lemma vAlpha_birth (rr : R) :
  0 <= rr <= 0.1 * maxRadius ->
  vAlpha rr = let u := normalizedR rr / 0.1 in u * u * (3 - 2 * u).
Proof.
unfold maxRadius. intros H. unfold vAlpha, fadeIn, fadeOut.
assert (Hn : 0 <= normalizedR rr <= 0.1) by (unfold normalizedR, maxRadius; lra).
rewrite smoothstep_inside by lra.
rewrite (smoothstep_below 0.7 1) by lra.
cbv zeta. replace (normalizedR rr - 0) with (normalizedR rr) by ring.
replace (0.1 - 0) with 0.1 by lra. ring.
Qed.

Lemma vAlpha_plateau (rr : R) :
  0.1 * maxRadius <= rr <= 0.7 * maxRadius -> vAlpha rr = 1.
Proof.
unfold maxRadius. intros H. unfold vAlpha, fadeIn, fadeOut.
assert (Hn : 0.1 <= normalizedR rr <= 0.7) by (unfold normalizedR, maxRadius; lra).
rewrite smoothstep_above by lra.
rewrite smoothstep_below by lra. ring.
Qed.

Lemma vAlpha_death (rr : R) :
  0.7 * maxRadius <= rr <= maxRadius ->
  vAlpha rr =
  let u := (normalizedR rr - 0.7) / 0.3 in 1 - u * u * (3 - 2 * u).
Proof.
unfold maxRadius. intros H. unfold vAlpha, fadeIn, fadeOut.
assert (Hn : 0.7 <= normalizedR rr <= 1) by (unfold normalizedR, maxRadius; lra).
rewrite smoothstep_above by lra.
rewrite smoothstep_inside by lra.
cbv zeta. replace (1 - 0.7) with 0.3 by lra. ring.
Qed.

Lemma vAlpha_range (rr : R) : 0 <= vAlpha rr <= 1.
Proof.
unfold vAlpha, fadeIn, fadeOut.
pose proof (smoothstep_range 0 0.1 (normalizedR rr)).
pose proof (smoothstep_range 0.7 1 (normalizedR rr)).
nra.
Qed.

Lemma vAlpha_at_birth : vAlpha 0 = 0.
Proof.
rewrite vAlpha_birth by (unfold maxRadius; lra).
unfold normalizedR, maxRadius. cbv zeta. lra.
Qed.

Lemma vAlpha_early : vAlpha (0.05 * maxRadius) = 0.5.
Proof.
rewrite vAlpha_birth by (unfold maxRadius; lra).
unfold normalizedR, maxRadius. cbv zeta. lra.
Qed.

Lemma vAlpha_middle : vAlpha (0.4 * maxRadius) = 1.
Proof. apply vAlpha_plateau. unfold maxRadius. lra. Qed.

Lemma vAlpha_late : vAlpha (0.95 * maxRadius) = 2 / 27.
Proof.
rewrite vAlpha_death by (unfold maxRadius; lra).
unfold normalizedR, maxRadius. cbv zeta. lra.
Qed.

(** Near the end of the cycle the opacity is at most [(maxRadius - r) / 0.6]. *)
Lemma vAlpha_death_bound (rr : R) :
  0.7 * maxRadius <= rr <= maxRadius -> vAlpha rr <= (maxRadius - rr) / 0.6.
Proof.
intros H. rewrite vAlpha_death by exact H.
unfold maxRadius in *. unfold normalizedR, maxRadius. cbv zeta.
set (u := (rr / 6 - 0.7) / 0.3).
assert (Hu : 0 <= u <= 1) by (unfold u; lra).
replace ((6 - rr) / 0.6) with (3 * (1 - u)) by (unfold u; lra).
assert (E : 1 - u * u * (3 - 2 * u) = (1 - u) * ((1 - u) * (1 + 2 * u)))
  by ring.
rewrite E.
assert ((1 - u) * (1 + 2 * u) <= 3) by nra.
nra.
Qed.

(** C2: the opacity is the product of a fade-in over the first 10% of the
    normalized cycle and a fade-out over its last 30%, both smoothsteps;
    it is 0 at [r = 0], tends to 0 as [r] tends to [maxRadius], lies in
    [0, 1] and reaches its maximum 1 strictly inside the cycle; and
    [alpha(0.05 maxRadius) < alpha(0.4 maxRadius)],
    [alpha(0.95 maxRadius) < alpha(0.4 maxRadius)]. *)
Theorem alpha_profile :
  (forall rr, vAlpha rr =
     smoothstep 0 0.1 (rr / maxRadius) *
     (1 - smoothstep 0.7 1 (rr / maxRadius))) /\
  (forall rr, 0 <= rr <= 0.1 * maxRadius ->
     vAlpha rr = let u := (rr / maxRadius) / 0.1 in u * u * (3 - 2 * u)) /\
  (forall rr, 0.1 * maxRadius <= rr <= 0.7 * maxRadius -> vAlpha rr = 1) /\
  (forall rr, 0.7 * maxRadius <= rr <= maxRadius ->
     vAlpha rr =
     let u := (rr / maxRadius - 0.7) / 0.3 in 1 - u * u * (3 - 2 * u)) /\
  vAlpha 0 = 0 /\
  vAlpha maxRadius = 0 /\
  (forall eps, 0 < eps ->
     exists delta, 0 < delta /\
       forall rr, maxRadius - delta < rr < maxRadius ->
         Rabs (vAlpha rr - 0) < eps) /\
  (forall rr, 0 <= vAlpha rr <= vAlpha (0.4 * maxRadius)) /\
  0 < 0.4 * maxRadius < maxRadius /\
  vAlpha (0.05 * maxRadius) < vAlpha (0.4 * maxRadius) /\
  vAlpha (0.95 * maxRadius) < vAlpha (0.4 * maxRadius).
Proof.
repeat split.
- apply vAlpha_birth; assumption.
- apply vAlpha_plateau; assumption.
- apply vAlpha_death; assumption.
- apply vAlpha_at_birth.
- rewrite vAlpha_death by (unfold maxRadius; lra).
  unfold normalizedR, maxRadius. cbv zeta. lra.
- intros eps Heps.
  exists (Rmin 1 (0.6 * eps)). split.
  + unfold Rmin. destruct Rle_dec; lra.
  + intros rr [Hlo Hhi].
    assert (Hd1 : Rmin 1 (0.6 * eps) <= 1) by apply Rmin_l.
    assert (Hd2 : Rmin 1 (0.6 * eps) <= 0.6 * eps) by apply Rmin_r.
    assert (Hr : 0.7 * maxRadius <= rr <= maxRadius)
      by (unfold maxRadius in *; lra).
    pose proof (vAlpha_death_bound rr Hr) as Hb.
    pose proof (vAlpha_range rr) as [Hpos _].
    rewrite Rminus_0_r, Rabs_pos_eq by exact Hpos.
    unfold maxRadius in *. lra.
- apply vAlpha_range.
- rewrite vAlpha_middle. apply vAlpha_range.
- unfold maxRadius. lra.
- unfold maxRadius. lra.
- rewrite vAlpha_early, vAlpha_middle. lra.
- rewrite vAlpha_late, vAlpha_middle. lra.
Qed.

Lemma alpha_profile_witness :
  0 <= 0.3 <= 0.1 * maxRadius /\
  vAlpha 0.3 = (let u := (0.3 / maxRadius) / 0.1 in u * u * (3 - 2 * u)).
Proof.
split.
- unfold maxRadius. lra.
- apply (proj1 (proj2 alpha_profile)). unfold maxRadius. lra.
Defined.

End Lifecycle.

(** ** The particle groups *)

Section Groups.
Import Field.

(** The inner loop makes [n] turns when [n - 1 < count <= n], whatever the
    random numbers are, and draws four random numbers per turn. *)
Lemma forLoop_turns (rnd : random) (count : R) (n : nat) :
  forall (fuel i k : nat) (b : buffers),
    count <= INR (i + n) ->
    ((0 < n)%nat -> INR (i + n) - 1 < count) ->
    (n < fuel)%nat ->
    exists b',
      forLoop fuel rnd count i k b = Some (b', (k + 4 * n)%nat) /\
      List.length (offsets b') = (List.length (offsets b) + n)%nat /\
      List.length (speeds b') = (List.length (speeds b) + n)%nat /\
      List.length (directions b') = (List.length (directions b) + 3 * n)%nat.
Proof.
induction n as [| n IH]; intros fuel i k b Hhi Hlo Hfuel.
- destruct fuel as [| fuel]; [lia |].
  exists b. simpl. rewrite Nat.add_0_r in Hhi.
  destruct (Rlt_dec (INR i) count) as [Hlt | _]; [lra |].
  repeat split; try lia. f_equal. f_equal. lia.
- destruct fuel as [| fuel]; [lia |].
  assert (Hi : INR i < count).
  { specialize (Hlo ltac:(lia)).
    replace (i + S n)%nat with (S (i + n)) in Hlo by lia.
    rewrite S_INR in Hlo.
    assert (INR i <= INR (i + n)) by (apply le_INR; lia). lra. }
  simpl. destruct (Rlt_dec (INR i) count) as [_ | Hn]; [| contradiction].
  edestruct (IH fuel (S i) (k + 4)%nat) as (b' & Hrun & Ho & Hs & Hd).
  + replace (S i + n)%nat with (i + S n)%nat by lia. exact Hhi.
  + intros _. replace (S i + n)%nat with (i + S n)%nat by lia.
    apply Hlo. lia.
  + lia.
  + exists b'. rewrite Hrun. simpl in Ho, Hs, Hd.
    rewrite length_app in Ho, Hs, Hd. simpl in Ho, Hs, Hd.
    repeat split; try lia. f_equal. f_equal. lia.
Qed.

(** [count = 1400 / 18] is not a whole number: it lies strictly between
    77 and 78. *)
Lemma count_between :
  INR 78 - 1 < totalParticles / INR (List.length items) <= INR 78.
Proof.
replace (INR (List.length items)) with 18 by (simpl; lra).
replace (INR 78) with 78 by (simpl; lra).
unfold totalParticles. lra.
Qed.

Lemma forEachBody_count (fuel : nat) (rnd : random) (it : item)
    (index k : nat) :
  (78 < fuel)%nat ->
  exists g k',
    forEachBody fuel rnd items it index k = Some (g, k') /\
    particleCount g = 78%nat.
Proof.
intros Hfuel. unfold forEachBody.
destruct (forLoop_turns rnd (totalParticles / INR (List.length items)) 78
            fuel 0 k empty) as (b & Hrun & Ho & _).
- apply count_between.
- intros _. apply count_between.
- exact Hfuel.
- rewrite Hrun.
  destruct (String.eqb (type it) "text"); eexists; eexists;
    (split; [reflexivity | exact Ho]).
Qed.

Lemma forEach_counts (fuel : nat) (rnd : random) (rest : list item) :
  (78 < fuel)%nat ->
  forall index k,
  exists gs,
    forEach fuel rnd items rest index k = Some gs /\
    List.length gs = List.length rest /\
    Forall (fun g => particleCount g = 78%nat) gs /\
    totalCount gs = (78 * List.length rest)%nat.
Proof.
intros Hfuel. induction rest as [| it rest IH]; intros index k.
- exists []. simpl. repeat split; constructor.
- destruct (forEachBody_count fuel rnd it index k Hfuel) as (g & k' & Hb & Hg).
  destruct (IH (S index) k') as (gs & Hrun & Hlen & Hall & Htot).
  exists (g :: gs). simpl. rewrite Hb, Hrun.
  repeat split.
  + simpl. lia.
  + constructor; assumption.
  + rewrite Htot, Hg. lia.
Qed.

(** C5 (as the code runs): with 1400 particles and 18 items the loop bound
    [count = 1400 / 18] is not a whole number; every group receives the
    same whole number of particles, 78, and the groups hold 1404 particles
    together, not [totalParticles]. *)
Theorem initScene_particle_counts (fuel : nat) (rnd : Field.random) :
  (78 < fuel)%nat ->
  exists gs,
    initScene fuel rnd = Some gs /\
    List.length gs = 18%nat /\
    Forall (fun g => particleCount g = 78%nat) gs /\
    totalCount gs = 1404%nat /\
    INR (totalCount gs) <> totalParticles /\
    (forall n : Z, IZR n <> totalParticles / INR (List.length items)).
Proof.
intros Hfuel.
destruct (forEach_counts fuel rnd items Hfuel 0%nat 0%nat)
  as (gs & Hrun & Hlen & Hall & Htot).
exists gs. unfold initScene. rewrite Hrun.
change (List.length items) with 18%nat in *.
repeat split; try assumption.
- rewrite Htot. unfold totalParticles.
  change (78 * 18)%nat with 1404%nat.
  rewrite INR_IZR_INZ. simpl. lra.
- intros n Hn.
  pose proof count_between as [Hlo Hhi].
  change (List.length items) with 18%nat in *.
  rewrite <- Hn in Hlo, Hhi.
  replace (INR 78 - 1) with (IZR 77) in Hlo by (simpl; lra).
  replace (INR 78) with (IZR 78) in Hhi by (simpl; lra).
  apply lt_IZR in Hlo. apply le_IZR in Hhi.
  assert (n = 78%Z) by lia. subst n.
  revert Hn. replace (INR 18) with 18 by (simpl; lra).
  unfold totalParticles. lra.
Qed.

Lemma initScene_particle_counts_witness :
  (78 < 79)%nat /\
  exists gs,
    initScene 79 (fun _ => 0) = Some gs /\
    List.length gs = 18%nat /\
    Forall (fun g => particleCount g = 78%nat) gs /\
    totalCount gs = 1404%nat /\
    INR (totalCount gs) <> totalParticles /\
    (forall n : Z, IZR n <> totalParticles / INR (List.length items)).
Proof.
split; [lia | apply (initScene_particle_counts 79 (fun _ => 0)); lia].
Defined.

End Groups.

(** ** The detection callback *)

(** Unfolds the field updates of the closure. *)
Ltac updates :=
  cbv [Canvas.requestAnimationFrame_predictWebcam Canvas.startVision_catch
       Canvas.setStatus Canvas.setIsLoading Canvas.set_handLandmarker
       Canvas.set_lastVideoTime Canvas.set_interaction Canvas.set_scene
       Canvas.set_waiting Canvas.detectForVideo Canvas.set_targetScale
       Canvas.set_targetTiltX Canvas.set_targetTiltY
       Canvas.status Canvas.isLoading Canvas.handLandmarker
       Canvas.lastVideoTime Canvas.interaction Canvas.scene Canvas.waiting
       Canvas.statusLog Canvas.detectLog Canvas.targetScale
       Canvas.currentScale Canvas.targetTiltX Canvas.targetTiltY
       Canvas.currentTiltX Canvas.currentTiltY Canvas.closure_of].

Section Detection.
Import Canvas.

Lemma hasHand_false (results : VisionResult) :
  hasHand results = false ->
  landmarks results = None \/ landmarks results = Some [].
Proof.
unfold hasHand. destruct (landmarks results) as [[| h tl] |]; auto.
discriminate.
Qed.

(** The camera has not produced a new frame: nothing but the next
    callback is requested. *)
Lemma predictWebcam_same_frame (s : Closure) (now : R)
    (results : VisionResult) :
  handLandmarker s = true ->
  predictWebcam (Some (lastVideoTime s)) now results s =
  Returned (requestAnimationFrame_predictWebcam s).
Proof.
intros Hl. unfold predictWebcam. rewrite Hl. simpl.
destruct (Req_dec_T (lastVideoTime s) (lastVideoTime s)); congruence.
Qed.

(** A new frame without a landmark set. *)
Lemma predictWebcam_nobody (s : Closure) (currentTime now : R)
    (results : VisionResult) :
  handLandmarker s = true ->
  currentTime <> lastVideoTime s ->
  hasHand results = false ->
  predictWebcam (Some currentTime) now results s =
  Returned
    (requestAnimationFrame_predictWebcam
       (setStatus SCANNING
          (detectForVideo currentTime now
             (set_lastVideoTime currentTime s)))).
Proof.
intros Hl Hnew Hno. unfold predictWebcam. rewrite Hl. simpl.
destruct (Req_dec_T currentTime (lastVideoTime s)); [contradiction |].
destruct (hasHand_false results Hno) as [E | E]; rewrite E; reflexivity.
Qed.

(** A new frame with a complete landmark set. *)
Lemma predictWebcam_hand (s : Closure) (currentTime now : R)
    (results : VisionResult) (hand : list HandLandmark)
    (others : list (list HandLandmark))
    (thumb indexFinger handCenter : HandLandmark) :
  handLandmarker s = true ->
  currentTime <> lastVideoTime s ->
  landmarks results = Some (hand :: others) ->
  nth_error hand 4 = Some thumb ->
  nth_error hand 8 = Some indexFinger ->
  nth_error hand 9 = Some handCenter ->
  predictWebcam (Some currentTime) now results s =
  Returned
    (mkClosure HAND_LOCKED (isLoading s) true currentTime
       (mkInteraction (pinchScale (pinchDist thumb indexFinger))
          (currentScale (interaction s))
          ((y handCenter - 0.5) * 3)
          ((x handCenter - 0.5) * -3)
          (currentTiltX (interaction s)) (currentTiltY (interaction s)))
       (scene s) AwaitFrame (statusLog s ++ [HAND_LOCKED])
       (detectLog s ++ [(currentTime, now)])).
Proof.
destruct s as [st il hl lvt i sc w sl dl]. cbn [handLandmarker lastVideoTime].
intros -> Hnew Hres H4 H8 H9. unfold predictWebcam.
cbn [handLandmarker lastVideoTime negb].
destruct (Req_dec_T currentTime lvt); [contradiction |].
rewrite Hres, H4, H8, H9. destruct i. updates. reflexivity.
Qed.

(** The targets are written by no path of [predictWebcam] that sees no
    landmark set, whether the detector is called or not. *)
Lemma predictWebcam_nobody_interaction (s : Closure) (video : option R)
    (now : R) (results : VisionResult) :
  hasHand results = false ->
  interaction (closure_of (predictWebcam video now results s)) =
  interaction s /\
  scene (closure_of (predictWebcam video now results s)) = scene s.
Proof.
intros Hno. unfold predictWebcam.
destruct (handLandmarker s); simpl; [| auto].
destruct video as [currentTime |]; simpl; [| auto].
destruct (Req_dec_T currentTime (lastVideoTime s)); simpl; [auto |].
destruct (hasHand_false results Hno) as [E | E]; rewrite E; simpl; auto.
Qed.

(** *** The pinch remap *)

Lemma clampDist_range (dist : R) : 0.02 <= clampDist dist <= 0.3.
Proof.
unfold clampDist, Rmax, Rmin. repeat destruct Rle_dec; lra.
Qed.

Lemma clampDist_inside (dist : R) :
  0.02 <= dist <= 0.3 -> clampDist dist = dist.
Proof.
intros H. unfold clampDist, Rmax, Rmin. repeat destruct Rle_dec; lra.
Qed.

Lemma clampDist_above (dist : R) : 0.3 <= dist -> clampDist dist = 0.3.
Proof.
intros H. unfold clampDist, Rmax, Rmin. repeat destruct Rle_dec; lra.
Qed.

Lemma clampDist_below (dist : R) : dist <= 0.02 -> clampDist dist = 0.02.
Proof.
intros H. unfold clampDist, Rmax, Rmin. repeat destruct Rle_dec; lra.
Qed.

Lemma pinchScale_range (dist : R) : 0.5 <= pinchScale dist <= 5.
Proof.
unfold pinchScale. pose proof (clampDist_range dist). lra.
Qed.

Lemma pinchScale_closed : pinchScale 0.02 = 0.5.
Proof. unfold pinchScale. rewrite clampDist_inside; lra. Qed.

Lemma pinchScale_open : pinchScale 0.3 = 5.
Proof. unfold pinchScale. rewrite clampDist_inside; lra. Qed.

Lemma pinchScale_saturates (dist : R) :
  0.3 <= dist -> pinchScale dist = pinchScale 0.3.
Proof.
intros H. unfold pinchScale.
rewrite (clampDist_above dist H), (clampDist_above 0.3); lra.
Qed.

Lemma pinchScale_floor (dist : R) :
  dist <= 0.02 -> pinchScale dist = pinchScale 0.02.
Proof.
intros H. unfold pinchScale.
rewrite (clampDist_below dist H), (clampDist_below 0.02); lra.
Qed.

Lemma pinchDist_horizontal (d : R) :
  0 <= d ->
  pinchDist (mkLandmark 0.5 0.5 0) (mkLandmark (0.5 + d) 0.5 0) = d.
Proof.
intros Hd. unfold pinchDist. simpl.
apply sqrt_lem_1; [nra | lra | ring].
Qed.

End Detection.

(** ** Gestures: from a detection to the targets *)

Section Gestures.
Import Canvas Samples.

Lemma streaming_eq :
  streaming =
  mkClosure INITIALIZING true true (-1) (mkInteraction 1 1 0 0 0 0)
    (mkScene (1, 1, 1) 0 0 0 0 0 0) AwaitLoadedData [] [].
Proof. reflexivity. Qed.

(** C3: for a detection with a landmark set, the distance between thumb
    tip and index fingertip is clamped to [0.02, 0.30] and the target scale
    is [0.5 + ((clampedDist - 0.02) / 0.28) * 4.5]: a distance of 0.02
    gives 0.5, a distance of 0.30 gives 5.0, and every larger distance
    gives what 0.30 gives. *)
Theorem pinch_to_scale (s : Closure) (currentTime now : R)
    (results : VisionResult) (hand : list HandLandmark)
    (others : list (list HandLandmark))
    (thumb indexFinger handCenter : HandLandmark) :
  handLandmarker s = true ->
  currentTime <> lastVideoTime s ->
  landmarks results = Some (hand :: others) ->
  nth_error hand 4 = Some thumb ->
  nth_error hand 8 = Some indexFinger ->
  nth_error hand 9 = Some handCenter ->
  let dist :=
    sqrt ((x thumb - x indexFinger) ^ 2 + (y thumb - y indexFinger) ^ 2) in
  let clamped := Rmax 0.02 (Rmin 0.3 dist) in
  exists s',
    predictWebcam (Some currentTime) now results s = Returned s' /\
    0.02 <= clamped <= 0.3 /\
    (0.02 <= dist <= 0.3 -> clamped = dist) /\
    targetScale (interaction s') = 0.5 + ((clamped - 0.02) / 0.28) * 4.5 /\
    (dist = 0.02 -> targetScale (interaction s') = 0.5) /\
    (dist = 0.3 -> targetScale (interaction s') = 5) /\
    (0.3 < dist -> targetScale (interaction s') = 5) /\
    (dist < 0.02 -> targetScale (interaction s') = 0.5).
Proof.
intros Hl Hnew Hres H4 H8 H9. cbv zeta.
fold (pinchDist thumb indexFinger).
set (dist := pinchDist thumb indexFinger).
fold (clampDist dist).
eexists. split.
- eapply predictWebcam_hand; eassumption.
- cbn [interaction targetScale]. fold dist.
  repeat split.
  + apply clampDist_range.
  + apply clampDist_range.
  + apply clampDist_inside.
  + intros E. rewrite E. apply pinchScale_closed.
  + intros E. rewrite E. apply pinchScale_open.
  + intros E. rewrite pinchScale_saturates by lra. apply pinchScale_open.
  + intros E. rewrite pinchScale_floor by lra. apply pinchScale_closed.
Qed.

Lemma pinch_to_scale_witness :
  exists s',
    predictWebcam (Some 0) 16 (seen (pinchedHand 0.5 0.5 0.5)) streaming =
    Returned s' /\
    targetScale (interaction s') = 5.
Proof.
destruct (pinch_to_scale streaming 0 16 (seen (pinchedHand 0.5 0.5 0.5))
            (pinchedHand 0.5 0.5 0.5) []
            (mkLandmark 0.5 0.5 0) (mkLandmark (0.5 + 0.5) 0.5 0)
            (mkLandmark 0.5 0.5 0))
  as (s' & Hrun & _ & _ & _ & _ & _ & Hwide & _).
- reflexivity.
- simpl. lra.
- reflexivity.
- reflexivity.
- reflexivity.
- reflexivity.
- exists s'. split; [exact Hrun |].
  apply Hwide. fold (pinchDist (mkLandmark 0.5 0.5 0)
                        (mkLandmark (0.5 + 0.5) 0.5 0)).
  rewrite pinchDist_horizontal; lra.
Defined.

(** A pinch 0.5 wide and a pinch 0.30 wide set the same target. *)
Example pinch_wide_as_open (s : Closure) (now : R) :
  handLandmarker s = true ->
  0 <> lastVideoTime s ->
  interaction
    (closure_of
       (predictWebcam (Some 0) now (seen (pinchedHand 0.5 0.5 0.5)) s)) =
  interaction
    (closure_of
       (predictWebcam (Some 0) now (seen (pinchedHand 0.3 0.5 0.5)) s)).
Proof.
intros Hl Hnew.
rewrite (predictWebcam_hand s 0 now (seen (pinchedHand 0.5 0.5 0.5))
           (pinchedHand 0.5 0.5 0.5) [] _ _ _
           Hl Hnew eq_refl eq_refl eq_refl eq_refl).
rewrite (predictWebcam_hand s 0 now (seen (pinchedHand 0.3 0.5 0.5))
           (pinchedHand 0.3 0.5 0.5) [] _ _ _
           Hl Hnew eq_refl eq_refl eq_refl eq_refl).
cbn [closure_of interaction].
rewrite !pinchDist_horizontal by lra.
rewrite (pinchScale_saturates 0.5) by lra. reflexivity.
Qed.

(** A landmark array that stops before index 8 is not a landmark set of
    the detector: the status is already written when the read of
    [indexFinger.x] fails, the targets are not, and the callback is not
    requested again. *)
Example short_hand_throws (s : Closure) (currentTime now : R) :
  handLandmarker s = true ->
  currentTime <> lastVideoTime s ->
  exists s',
    predictWebcam (Some currentTime) now
      (seen [origin; origin; origin; origin; origin]) s = TypeError s' /\
    status s' = HAND_LOCKED /\
    interaction s' = interaction s /\
    waiting s' = waiting s.
Proof.
destruct s as [st il hl lvt i sc w sl dl]. cbn [handLandmarker lastVideoTime].
intros -> Hnew. unfold predictWebcam.
cbn [handLandmarker lastVideoTime negb].
destruct (Req_dec_T currentTime lvt); [contradiction |].
cbn [seen landmarks nth_error]. updates.
eexists. split; [reflexivity |]. repeat split.
Qed.

(** C9: for a detection with a landmark set, the palm center (index 9)
    sets [targetTiltY = (palmCenter.x - 0.5) * (-3.0)], the horizontal
    offset from the frame center with a negative sign and gain 3, and
    [targetTiltX = (palmCenter.y - 0.5) * 3.0]. *)
Theorem palm_to_tilt (s : Closure) (currentTime now : R)
    (results : VisionResult) (hand : list HandLandmark)
    (others : list (list HandLandmark))
    (thumb indexFinger handCenter : HandLandmark) :
  handLandmarker s = true ->
  currentTime <> lastVideoTime s ->
  landmarks results = Some (hand :: others) ->
  nth_error hand 4 = Some thumb ->
  nth_error hand 8 = Some indexFinger ->
  nth_error hand 9 = Some handCenter ->
  exists s',
    predictWebcam (Some currentTime) now results s = Returned s' /\
    targetTiltY (interaction s') = (x handCenter - 0.5) * (-3) /\
    targetTiltY (interaction s') = - (3 * (x handCenter - 0.5)) /\
    targetTiltX (interaction s') = (y handCenter - 0.5) * 3.
Proof.
intros Hl Hnew Hres H4 H8 H9.
eexists. split.
- eapply predictWebcam_hand; eassumption.
- cbn [interaction targetTiltX targetTiltY]. repeat split; lra.
Qed.

Lemma palm_to_tilt_witness :
  exists s',
    predictWebcam (Some 0) 16 (seen (pinchedHand 0.1 0.75 0.25)) streaming =
    Returned s' /\
    targetTiltY (interaction s') = -0.75 /\
    targetTiltX (interaction s') = -0.75.
Proof.
destruct (palm_to_tilt streaming 0 16 (seen (pinchedHand 0.1 0.75 0.25))
            (pinchedHand 0.1 0.75 0.25) []
            (mkLandmark 0.5 0.5 0) (mkLandmark (0.5 + 0.1) 0.5 0)
            (mkLandmark 0.75 0.25 0))
  as (s' & Hrun & HY & _ & HX).
- reflexivity.
- simpl. lra.
- reflexivity.
- reflexivity.
- reflexivity.
- reflexivity.
- exists s'. split; [exact Hrun |].
  rewrite HY, HX. simpl. lra.
Defined.

(** C6: in a detection step whose result holds no landmark set the three
    targets keep their values (as do the smoothed values and the scene);
    the status becomes "SCANNING SPACE...". *)
Theorem no_landmarks_hold_targets (s : Closure) (currentTime now : R)
    (results : VisionResult) :
  handLandmarker s = true ->
  currentTime <> lastVideoTime s ->
  hasHand results = false ->
  exists s',
    predictWebcam (Some currentTime) now results s = Returned s' /\
    targetScale (interaction s') = targetScale (interaction s) /\
    targetTiltX (interaction s') = targetTiltX (interaction s) /\
    targetTiltY (interaction s') = targetTiltY (interaction s) /\
    interaction s' = interaction s /\
    scene s' = scene s /\
    isLoading s' = isLoading s /\
    status s' = SCANNING /\
    statusLog s' = statusLog s ++ [SCANNING] /\
    detectLog s' = detectLog s ++ [(currentTime, now)].
Proof.
intros Hl Hnew Hno.
eexists. split.
- apply predictWebcam_nobody; assumption.
- updates. repeat split.
Qed.

Lemma no_landmarks_hold_targets_witness :
  exists s',
    predictWebcam (Some 0) 16 nobody streaming = Returned s' /\
    targetScale (interaction s') = 1 /\
    targetTiltX (interaction s') = 0 /\
    targetTiltY (interaction s') = 0 /\
    status s' = SCANNING.
Proof.
destruct (no_landmarks_hold_targets streaming 0 16 nobody)
  as (s' & Hrun & HS & HX & HY & _ & _ & _ & Hst & _).
- reflexivity.
- simpl. lra.
- reflexivity.
- exists s'. repeat split; assumption.
Defined.

End Gestures.

(** ** Smoothing *)

Section Smoothing.
Import Canvas Samples.

Lemma smooth_convex (target current : R) :
  smooth target current = 0.9 * current + 0.1 * target.
Proof. unfold smooth, lerpFactor. lra. Qed.

Lemma smooth_residual (target current : R) :
  smooth target current - target = 0.9 * (current - target).
Proof. unfold smooth, lerpFactor. lra. Qed.

Lemma smooth_iter_residual (n : nat) (target : R) :
  forall current,
    smooth_iter n target current - target = 0.9 ^ n * (current - target).
Proof.
induction n as [| n IH]; intros current; simpl.
- lra.
- rewrite IH, smooth_residual. ring.
Qed.

Lemma smooth_iter_succ (n : nat) (target : R) :
  forall current,
    smooth_iter (S n) target current =
    smooth target (smooth_iter n target current).
Proof.
induction n as [| n IH]; intros current.
- reflexivity.
- change (smooth_iter (S (S n)) target current)
    with (smooth_iter (S n) target (smooth target current)).
  rewrite IH. reflexivity.
Qed.

Lemma pow_09_pos (n : nat) : 0 < 0.9 ^ n <= 1.
Proof.
induction n as [| n IH]; simpl; lra.
Qed.

Lemma pow_09_antitone (n m : nat) : (n <= m)%nat -> 0.9 ^ m <= 0.9 ^ n.
Proof.
intros H. replace m with (n + (m - n))%nat by lia.
rewrite pow_add.
pose proof (pow_09_pos n). pose proof (pow_09_pos (m - n)). nra.
Qed.

Lemma pow_09_65 : 1 / 1000 < 0.9 ^ 65.
Proof. simpl. lra. Qed.

Lemma pow_09_66 : 0.9 ^ 66 < 1 / 1000.
Proof. simpl. lra. Qed.

(** A render frame moves the three smoothed values and leaves the
    targets alone. *)
Lemma animate_interaction (now : R) (s : Closure) :
  interaction (animate now s) =
  let i := interaction s in
  mkInteraction (targetScale i) (smooth (targetScale i) (currentScale i))
    (targetTiltX i) (targetTiltY i)
    (smooth (targetTiltX i) (currentTiltX i))
    (smooth (targetTiltY i) (currentTiltY i)).
Proof. reflexivity. Qed.

Lemma renderFrames_interaction (nows : list R) :
  forall s,
    interaction (run s (renderFrames nows)) =
    let i := interaction s in
    let n := List.length nows in
    mkInteraction (targetScale i)
      (smooth_iter n (targetScale i) (currentScale i))
      (targetTiltX i) (targetTiltY i)
      (smooth_iter n (targetTiltX i) (currentTiltX i))
      (smooth_iter n (targetTiltY i) (currentTiltY i)).
Proof.
induction nows as [| now nows IH]; intros s.
- simpl. destruct (interaction s); reflexivity.
- change (run s (renderFrames (now :: nows)))
    with (run (dispatch s (RenderFrame now)) (renderFrames nows)).
  rewrite IH.
  replace (dispatch s (RenderFrame now)) with (animate now s)
    by (unfold dispatch; destruct (waiting s); reflexivity).
  rewrite animate_interaction. reflexivity.
Qed.

Lemma opened_interaction :
  interaction opened = mkInteraction 5 1 ((0.5 - 0.5) * 3) ((0.5 - 0.5) * -3) 0 0.
Proof.
unfold opened. rewrite streaming_eq. unfold dispatch, onLoadedData.
cbn [waiting].
rewrite (predictWebcam_hand _ 0 16 (seen (pinchedHand 0.3 0.5 0.5))
           (pinchedHand 0.3 0.5 0.5) []
           (mkLandmark 0.5 0.5 0) (mkLandmark (0.5 + 0.3) 0.5 0)
           (mkLandmark 0.5 0.5 0));
  try reflexivity.
- updates. rewrite pinchDist_horizontal by lra. rewrite pinchScale_open.
  reflexivity.
- updates. lra.
Qed.

(** The claim of C4 fails at 65 frames: with the scale target at 5 and the
    current scale at 1, the gap after any number of frames up to 65 is more
    than a thousandth of the initial gap, because [0.9 ^ 65 > 1e-3]. *)
Lemma smoothing_short_at_65 :
  1 / 1000 < 0.9 ^ 65 /\
  ~ (exists n : nat,
       (n <= 65)%nat /\
       Rabs
         (currentScale (interaction (run opened (renderFrames (repeat 0 n)))) -
          targetScale (interaction opened)) <=
       1 / 1000 *
       Rabs
         (currentScale (interaction opened) -
          targetScale (interaction opened))).
Proof.
split; [exact pow_09_65 |].
intros (n & Hn & Hclose).
rewrite renderFrames_interaction in Hclose.
rewrite opened_interaction in Hclose.
cbn [targetScale currentScale] in Hclose. cbv zeta in Hclose.
rewrite repeat_length, smooth_iter_residual in Hclose.
rewrite Rabs_mult in Hclose.
pose proof (pow_09_pos n) as [Hpos _].
rewrite (Rabs_pos_eq (0.9 ^ n)) in Hclose by lra.
replace (Rabs (1 - 5)) with 4 in Hclose
  by (rewrite Rabs_left; lra).
pose proof (pow_09_antitone n 65 Hn).
pose proof pow_09_65. lra.
Qed.

(** C4 (amended): with the targets held, every render frame multiplies the
    gap between each smoothed value and its target by 0.9; the value moves
    toward the target without passing it; and after 66 frames or more the
    gap is at most a thousandth of the initial one
    ([0.9 ^ 66 < 1e-3 < 0.9 ^ 65]). *)
Theorem smoothing_converges (s : Closure) (nows : list R) :
  let n := List.length nows in
  let i := interaction s in
  let i' := interaction (run s (renderFrames nows)) in
  (targetScale i' = targetScale i /\
   targetTiltX i' = targetTiltX i /\
   targetTiltY i' = targetTiltY i) /\
  (currentScale i' = smooth_iter n (targetScale i) (currentScale i) /\
   currentTiltX i' = smooth_iter n (targetTiltX i) (currentTiltX i) /\
   currentTiltY i' = smooth_iter n (targetTiltY i) (currentTiltY i)) /\
  (forall (target current : R) (k : nat),
     smooth_iter k target current - target = 0.9 ^ k * (current - target) /\
     Rabs (smooth_iter (S k) target current - target) =
     0.9 * Rabs (smooth_iter k target current - target) /\
     (current <= target ->
      smooth_iter k target current <= smooth_iter (S k) target current
      <= target) /\
     (target <= current ->
      target <= smooth_iter (S k) target current
      <= smooth_iter k target current) /\
     ((66 <= k)%nat ->
      Rabs (smooth_iter k target current - target) <=
      1 / 1000 * Rabs (current - target))) /\
  0.9 ^ 66 < 1 / 1000 < 0.9 ^ 65.
Proof.
intros n i i'. subst i'. rewrite renderFrames_interaction. fold i. fold n.
cbn [targetScale targetTiltX targetTiltY currentScale currentTiltX
     currentTiltY]. cbv zeta.
split; [repeat split |]. split; [repeat split |].
split; [| split; [exact pow_09_66 | exact pow_09_65]].
intros target current k.
pose proof (smooth_iter_residual k target current) as Hk.
pose proof (pow_09_pos k) as [Hpos Hle1].
assert (Hnext : smooth_iter (S k) target current =
                0.9 * smooth_iter k target current + 0.1 * target)
  by (rewrite smooth_iter_succ; apply smooth_convex).
split; [exact Hk |]. split; [| split; [| split]].
- replace (smooth_iter (S k) target current - target)
    with (0.9 * (smooth_iter k target current - target)) by lra.
  rewrite Rabs_mult, (Rabs_pos_eq 0.9) by lra. reflexivity.
- intros Hc. assert (smooth_iter k target current <= target) by nra. lra.
- intros Hc. assert (target <= smooth_iter k target current) by nra. lra.
- intros H66. rewrite Hk, Rabs_mult, (Rabs_pos_eq (0.9 ^ k)) by lra.
  pose proof (pow_09_antitone 66 k H66).
  pose proof pow_09_66.
  pose proof (Rabs_pos (current - target)). nra.
Qed.

Lemma smoothing_converges_witness :
  Rabs
    (currentScale (interaction (run opened (renderFrames (repeat 0 66)))) - 5)
  <= 1 / 1000 * Rabs (1 - 5).
Proof.
destruct (smoothing_converges opened (repeat 0 66))
  as (_ & (Hc & _ & _) & Hall & _).
rewrite Hc, opened_interaction.
cbn [targetScale currentScale]. rewrite repeat_length.
apply (Hall 5 1 66%nat). lia.
Defined.

(** *** The scale never leaves its range *)

Lemma scale_in_range_initial : scale_in_range initial.
Proof. unfold scale_in_range. simpl. repeat split; lra. Qed.

Lemma predictWebcam_scale_in_range (video : option R) (now : R)
    (results : VisionResult) (s : Closure) :
  scale_in_range s ->
  scale_in_range (closure_of (predictWebcam video now results s)).
Proof.
intros Hs. unfold predictWebcam.
destruct (handLandmarker s); cbn [negb closure_of]; [| exact Hs].
destruct video as [currentTime |]; [| exact Hs].
destruct (Req_dec_T currentTime (lastVideoTime s)); [exact Hs |].
destruct Hs as (Ht & Hc & Hv).
destruct (landmarks results) as [[| hand others] |];
  [ split; [| split]; assumption | | split; [| split]; assumption ].
destruct (nth_error hand 4) as [thumb |];
  [| split; [| split]; assumption ].
destruct (nth_error hand 8) as [indexFinger |];
  [| split; [| split]; assumption ].
pose proof (pinchScale_range (pinchDist thumb indexFinger)).
destruct (nth_error hand 9) as [handCenter |];
  (split; [| split]; updates; assumption).
Qed.

Lemma animate_scale_in_range (now : R) (s : Closure) :
  scale_in_range s -> scale_in_range (animate now s).
Proof.
intros (Ht & Hc & Hv). unfold scale_in_range, animate.
cbn [interaction scene set_scene set_interaction targetScale currentScale
     scale].
rewrite smooth_convex. repeat split; lra.
Qed.

Lemma dispatch_scale_in_range (s : Closure) (e : event) :
  scale_in_range s -> scale_in_range (dispatch s e).
Proof.
intros Hs. unfold dispatch.
destruct e as [notNull | | videoMounted | | video now results
              | video now results | now];
  destruct (waiting s) eqn:Hw; try exact Hs;
  try (apply animate_scale_in_range; exact Hs);
  try (destruct videoMounted; exact Hs).
- unfold onLoadedData. apply predictWebcam_scale_in_range. exact Hs.
- apply predictWebcam_scale_in_range. exact Hs.
Qed.

Lemma run_scale_in_range (es : list event) :
  forall s, scale_in_range s -> scale_in_range (run s es).
Proof.
induction es as [| e es IH]; intros s Hs.
- exact Hs.
- apply IH, dispatch_scale_in_range, Hs.
Qed.

(** C10: the current scale starts at 1, its target starts at 1, every
    write of the target is a value of the clamp-then-remap in [0.5, 5],
    every smoothing step is a convex combination of the current value and
    the target; so after any sequence of events the current scale, its
    target and the scale applied to the scene lie in [0.5, 5]. *)
Theorem scale_stays_in_range (es : list event) :
  let s := run initial es in
  0.5 <= currentScale (interaction s) <= 5 /\
  0.5 <= targetScale (interaction s) <= 5 /\
  scale (scene s) =
  (currentScale (interaction s), currentScale (interaction s),
   currentScale (interaction s)) /\
  currentScale (interaction initial) = 1 /\
  targetScale (interaction initial) = 1 /\
  (forall dist, 0.5 <= pinchScale dist <= 5) /\
  (forall target current,
     smooth target current = (1 - 0.1) * current + 0.1 * target).
Proof.
intros s.
destruct (run_scale_in_range es initial scale_in_range_initial)
  as (Ht & Hc & Hv).
split; [exact Hc |]. split; [exact Ht |]. split; [exact Hv |].
split; [reflexivity |]. split; [reflexivity |].
split; [exact pinchScale_range |].
intros target current. rewrite smooth_convex. lra.
Qed.

End Smoothing.

(** ** The vision pipeline: status and detector calls *)

Section Pipeline.
Import Canvas Samples.

Lemma nth_error_in_range {A : Type} (l : list A) (n : nat) :
  (n < List.length l)%nat -> exists a, nth_error l n = Some a.
Proof.
intros H. destruct (nth_error l n) as [a |] eqn:E.
- exists a. reflexivity.
- apply nth_error_None in E. lia.
Qed.

(** A call of [predictWebcam] that reaches the detector. *)
Lemma predictWebcam_called (s : Closure) (currentTime now : R)
    (results : VisionResult) :
  handLandmarker s = true ->
  currentTime <> lastVideoTime s ->
  let s' := closure_of (predictWebcam (Some currentTime) now results s) in
  detectLog s' = detectLog s ++ [(currentTime, now)] /\
  lastVideoTime s' = currentTime /\
  handLandmarker s' = true /\
  status s' = (if hasHand results then HAND_LOCKED else SCANNING) /\
  statusLog s' =
  statusLog s ++ [if hasHand results then HAND_LOCKED else SCANNING] /\
  (waiting s' = AwaitFrame \/ waiting s' = waiting s).
Proof.
destruct s as [st il hl lvt i sc w sl dl]. cbn [handLandmarker lastVideoTime].
intros -> Hnew. unfold predictWebcam, hasHand.
cbn [handLandmarker lastVideoTime negb].
destruct (Req_dec_T currentTime lvt); [contradiction |].
destruct (landmarks results) as [[| hand others] |];
  [ updates; repeat split; auto
  |
  | updates; repeat split; auto ].
destruct (nth_error hand 4); destruct (nth_error hand 8);
  destruct (nth_error hand 9);
  updates; repeat split; auto.
Qed.

(** A call of [predictWebcam] that does not reach the detector: the
    landmarker is missing, the video element is gone, or the video time is
    the one stored. *)
Lemma predictWebcam_idle (s : Closure) (video : option R) (now : R)
    (results : VisionResult) :
  handLandmarker s = false \/ video = None \/
  video = Some (lastVideoTime s) ->
  let s' := closure_of (predictWebcam video now results s) in
  detectLog s' = detectLog s /\
  lastVideoTime s' = lastVideoTime s /\
  handLandmarker s' = handLandmarker s /\
  status s' = status s /\
  statusLog s' = statusLog s /\
  (waiting s' = AwaitFrame \/ waiting s' = waiting s).
Proof.
destruct s as [st il hl lvt i sc w sl dl]. cbn [handLandmarker lastVideoTime].
intros H. unfold predictWebcam. cbn [handLandmarker lastVideoTime].
destruct hl; cbn [negb]; [| updates; repeat split; auto ].
destruct H as [H | [H | H]]; [discriminate | |]; subst video.
- updates. repeat split; auto.
- destruct (Req_dec_T lvt lvt); [| congruence].
  updates. repeat split; auto.
Qed.

Lemma predictWebcam_cases (s : Closure) (video : option R) :
  (handLandmarker s = false \/ video = None \/
   video = Some (lastVideoTime s)) \/
  (exists currentTime,
     video = Some currentTime /\ handLandmarker s = true /\
     currentTime <> lastVideoTime s).
Proof.
destruct (handLandmarker s); [| auto].
destruct video as [currentTime |]; [| auto].
destruct (Req_dec_T currentTime (lastVideoTime s)) as [E | E].
- subst. auto.
- right. exists currentTime. auto.
Qed.

(** *** Status *)

Lemma status_by_stage_initial : status_by_stage initial.
Proof. unfold status_by_stage. simpl. auto. Qed.

Lemma predictWebcam_status_stage (s : Closure) (video : option R) (now : R)
    (results : VisionResult) :
  waiting s = Nothing ->
  status s = SYSTEM_READY \/ status s = HAND_LOCKED \/ status s = SCANNING ->
  status_by_stage (closure_of (predictWebcam video now results s)).
Proof.
intros Hw Hst. unfold status_by_stage.
destruct (predictWebcam_cases s video) as [Hidle | (ct & -> & Hl & Hnew)].
- destruct (predictWebcam_idle s video now results Hidle)
    as (_ & _ & _ & Hs & _ & [Hw' | Hw']).
  + rewrite Hw', Hs. exact Hst.
  + rewrite Hw', Hw. exact I.
- destruct (predictWebcam_called s ct now results Hl Hnew)
    as (_ & _ & _ & Hs & _ & [Hw' | Hw']).
  + rewrite Hw', Hs. destruct (hasHand results); auto.
  + rewrite Hw', Hw. exact I.
Qed.

Lemma dispatch_status_by_stage (s : Closure) (e : event) :
  status_by_stage s -> status_by_stage (dispatch s e).
Proof.
intros Hs. unfold dispatch.
destruct e as [notNull | | videoMounted | | video now results
              | video now results | now];
  destruct (waiting s) eqn:Hw; try exact Hs;
  try (unfold status_by_stage in *; rewrite Hw in Hs; cbn; rewrite ?Hw;
       exact Hs);
  try exact I.
- destruct videoMounted; unfold status_by_stage in *; rewrite Hw in Hs;
    cbn; auto.
- unfold onLoadedData. apply predictWebcam_status_stage; [reflexivity |].
  left. reflexivity.
- apply predictWebcam_status_stage; [reflexivity |].
  unfold status_by_stage in Hs. rewrite Hw in Hs. exact Hs.
Qed.

Lemma run_status_by_stage (es : list event) :
  forall s, status_by_stage s -> status_by_stage (run s es).
Proof.
induction es as [| e es IH]; intros s Hs.
- exact Hs.
- apply IH, dispatch_status_by_stage, Hs.
Qed.

(** Once no callback of the pipeline is registered, status and detector
    log are final. *)
Lemma dispatch_stopped (s : Closure) (e : event) :
  waiting s = Nothing ->
  waiting (dispatch s e) = Nothing /\
  status (dispatch s e) = status s /\
  statusLog (dispatch s e) = statusLog s /\
  detectLog (dispatch s e) = detectLog s.
Proof.
intros Hw. unfold dispatch. rewrite Hw.
destruct e; cbn; auto.
Qed.

Lemma run_stopped (es : list event) :
  forall s,
    waiting s = Nothing ->
    waiting (run s es) = Nothing /\
    status (run s es) = status s /\
    statusLog (run s es) = statusLog s /\
    detectLog (run s es) = detectLog s.
Proof.
induction es as [| e es IH]; intros s Hw.
- auto.
- destruct (dispatch_stopped s e Hw) as (Hw' & Hs & Hl & Hd).
  destruct (IH (dispatch s e) Hw') as (Hw'' & Hs' & Hl' & Hd').
  change (run s (e :: es)) with (run (dispatch s e) es).
  repeat split; congruence.
Qed.

Lemma camera_error_stopped (s : Closure) :
  status_by_stage s -> status s = CAMERA_ERROR -> waiting s = Nothing.
Proof.
unfold status_by_stage. intros Hs He.
destruct (waiting s); try reflexivity; rewrite He in Hs;
  [ destruct Hs as [Hs _]; discriminate Hs
  | destruct Hs as [Hs _]; discriminate Hs
  | destruct Hs as [Hs _]; discriminate Hs
  | destruct Hs as [Hs | [Hs | Hs]]; discriminate Hs ].
Qed.

(** The first frame and three detections, as the event loop runs them. *)
Lemma status_sequence (t1 t2 t3 n1 n2 n3 : R) (r1 r2 r3 : VisionResult)
    (hand : list HandLandmark) (others : list (list HandLandmark)) :
  0 <= t1 -> t2 <> t1 -> t3 <> t2 ->
  hasHand r1 = false ->
  landmarks r2 = Some (hand :: others) ->
  (9 < List.length hand)%nat ->
  hasHand r3 = false ->
  let s1 := dispatch streaming (LoadedData (Some t1) n1 r1) in
  let s2 := dispatch s1 (DetectionFrame (Some t2) n2 r2) in
  let s3 := dispatch s2 (DetectionFrame (Some t3) n3 r3) in
  (statusLog s1 = [SYSTEM_READY; SCANNING] /\ status s1 = SCANNING) /\
  (statusLog s2 = [SYSTEM_READY; SCANNING; HAND_LOCKED] /\
   status s2 = HAND_LOCKED) /\
  (statusLog s3 = [SYSTEM_READY; SCANNING; HAND_LOCKED; SCANNING] /\
   status s3 = SCANNING).
Proof.
intros Ht1 Ht2 Ht3 Hr1 Hr2 Hlen Hr3.
destruct (nth_error_in_range hand 4 ltac:(lia)) as (thumb & H4).
destruct (nth_error_in_range hand 8 ltac:(lia)) as (indexFinger & H8).
destruct (nth_error_in_range hand 9 ltac:(lia)) as (handCenter & H9).
intros s1 s2 s3.
assert (E1 : s1 =
  mkClosure SCANNING false true t1 (mkInteraction 1 1 0 0 0 0)
    (mkScene (1, 1, 1) 0 0 0 0 0 0) AwaitFrame [SYSTEM_READY; SCANNING]
    [(t1, n1)]).
{ subst s1. rewrite streaming_eq. unfold dispatch, onLoadedData.
  cbn [waiting]. rewrite predictWebcam_nobody; [reflexivity | reflexivity | | exact Hr1].
  updates. lra. }
assert (E2 : s2 =
  mkClosure HAND_LOCKED false true t2
    (mkInteraction (pinchScale (pinchDist thumb indexFinger)) 1
       ((y handCenter - 0.5) * 3) ((x handCenter - 0.5) * -3) 0 0)
    (mkScene (1, 1, 1) 0 0 0 0 0 0) AwaitFrame
    [SYSTEM_READY; SCANNING; HAND_LOCKED] [(t1, n1); (t2, n2)]).
{ subst s2. rewrite E1. unfold dispatch. cbn [waiting].
  rewrite (predictWebcam_hand _ t2 n2 r2 hand others thumb indexFinger
             handCenter); try assumption; reflexivity. }
assert (E3 : s3 =
  mkClosure SCANNING false true t3
    (mkInteraction (pinchScale (pinchDist thumb indexFinger)) 1
       ((y handCenter - 0.5) * 3) ((x handCenter - 0.5) * -3) 0 0)
    (mkScene (1, 1, 1) 0 0 0 0 0 0) AwaitFrame
    [SYSTEM_READY; SCANNING; HAND_LOCKED; SCANNING]
    [(t1, n1); (t2, n2); (t3, n3)]).
{ subst s3. rewrite E2. unfold dispatch. cbn [waiting].
  rewrite predictWebcam_nobody; try assumption; reflexivity. }
rewrite E1, E2, E3. repeat split.
Qed.

(** C7: the status starts as "INITIALIZING..."; a failed acquisition sets
    "CAMERA ERROR" and nothing changes it afterwards; the first video frame
    sets "SYSTEM READY"; afterwards a detection with a landmark set sets
    "HAND LOCKED" and one without sets "SCANNING SPACE..."; the sequence
    stream ok, no landmarks, landmarks, no landmarks gives SYSTEM READY,
    SCANNING, HAND LOCKED, SCANNING. *)
Theorem status_machine :
  (status initial = INITIALIZING /\ statusLog initial = []) /\
  (forall es,
     waiting (run initial es) = AwaitLandmarker \/
     waiting (run initial es) = AwaitStream \/
     waiting (run initial es) = AwaitLoadedData ->
     status (run initial es) = INITIALIZING) /\
  (forall s e,
     waiting s = AwaitLandmarker /\ e = LandmarkerRejected \/
     waiting s = AwaitStream /\ e = StreamRejected ->
     status (dispatch s e) = CAMERA_ERROR /\
     forall es,
       status (run (dispatch s e) es) = CAMERA_ERROR /\
       statusLog (run (dispatch s e) es) = statusLog s ++ [CAMERA_ERROR]) /\
  (forall es es',
     status (run initial es) = CAMERA_ERROR ->
     status (run (run initial es) es') = CAMERA_ERROR) /\
  (forall s video now results,
     waiting s = AwaitLoadedData ->
     exists later,
       statusLog (dispatch s (LoadedData video now results)) =
       statusLog s ++ SYSTEM_READY :: later) /\
  (forall s currentTime now results,
     handLandmarker s = true ->
     currentTime <> lastVideoTime s ->
     let s' := closure_of (predictWebcam (Some currentTime) now results s) in
     status s' = (if hasHand results then HAND_LOCKED else SCANNING) /\
     statusLog s' = statusLog s ++ [status s']) /\
  (forall t1 t2 t3 n1 n2 n3 r1 r2 r3 hand others,
     0 <= t1 -> t2 <> t1 -> t3 <> t2 ->
     hasHand r1 = false ->
     landmarks r2 = Some (hand :: others) ->
     (9 < List.length hand)%nat ->
     hasHand r3 = false ->
     statusLog
       (run initial
          [ LandmarkerResolved true; StreamResolved true;
            LoadedData (Some t1) n1 r1;
            DetectionFrame (Some t2) n2 r2;
            DetectionFrame (Some t3) n3 r3 ]) =
     [SYSTEM_READY; SCANNING; HAND_LOCKED; SCANNING]).
Proof.
split; [split; reflexivity |].
split.
{ intros es Hw.
  pose proof (run_status_by_stage es initial status_by_stage_initial) as Hs.
  unfold status_by_stage in Hs.
  destruct Hw as [Hw | [Hw | Hw]]; rewrite Hw in Hs; apply Hs. }
split.
{ intros s e He.
  assert (Hd : waiting (dispatch s e) = Nothing /\
               status (dispatch s e) = CAMERA_ERROR /\
               statusLog (dispatch s e) = statusLog s ++ [CAMERA_ERROR]).
  { destruct He as [[Hw ->] | [Hw ->]]; unfold dispatch; rewrite Hw;
      repeat split. }
  destruct Hd as (Hw & Hs & Hl). split; [exact Hs |].
  intros es. destruct (run_stopped es _ Hw) as (_ & Hs' & Hl' & _).
  split; congruence. }
split.
{ intros es es' He.
  pose proof (run_status_by_stage es initial status_by_stage_initial) as Hs.
  pose proof (camera_error_stopped _ Hs He) as Hw.
  destruct (run_stopped es' _ Hw) as (_ & Hs' & _). congruence. }
split.
{ intros s video now results Hw. unfold dispatch. rewrite Hw.
  unfold onLoadedData.
  set (s0 := setStatus SYSTEM_READY (setIsLoading false (set_waiting Nothing s))).
  assert (Hl0 : statusLog s0 = statusLog s ++ [SYSTEM_READY]) by reflexivity.
  destruct (predictWebcam_cases s0 video) as [Hidle | (ct & -> & Hl & Hnew)].
  - destruct (predictWebcam_idle s0 video now results Hidle)
      as (_ & _ & _ & _ & Hlog & _).
    exists []. rewrite Hlog. exact Hl0.
  - destruct (predictWebcam_called s0 ct now results Hl Hnew)
      as (_ & _ & _ & _ & Hlog & _).
    eexists. rewrite Hlog, Hl0, <- app_assoc. reflexivity. }
split.
{ intros s currentTime now results Hl Hnew s'.
  destruct (predictWebcam_called s currentTime now results Hl Hnew)
    as (_ & _ & _ & Hs & Hlog & _).
  fold s' in Hs, Hlog. rewrite Hlog, Hs. split; reflexivity. }
intros t1 t2 t3 n1 n2 n3 r1 r2 r3 hand others Ht1 Ht2 Ht3 Hr1 Hr2 Hlen Hr3.
destruct (status_sequence t1 t2 t3 n1 n2 n3 r1 r2 r3 hand others
            Ht1 Ht2 Ht3 Hr1 Hr2 Hlen Hr3) as (_ & _ & Hlog & _).
exact Hlog.
Qed.

Lemma status_machine_witness :
  statusLog
    (run initial
       [ LandmarkerResolved true; StreamResolved true;
         LoadedData (Some 0) 16 nobody;
         DetectionFrame (Some (1 / 30)) 32 (seen (pinchedHand 0.1 0.5 0.5));
         DetectionFrame (Some (2 / 30)) 48 nobody ]) =
  [SYSTEM_READY; SCANNING; HAND_LOCKED; SCANNING] /\
  status (run (dispatch initial LandmarkerRejected)
            [LandmarkerResolved true; RenderFrame 16]) = CAMERA_ERROR.
Proof.
destruct status_machine as (_ & _ & Hfail & _ & _ & _ & Hseq).
split.
- apply (Hseq 0 (1 / 30) (2 / 30) 16 32 48 nobody
           (seen (pinchedHand 0.1 0.5 0.5)) nobody
           (pinchedHand 0.1 0.5 0.5) []);
    try reflexivity; try lra.
  simpl. lia.
- apply (Hfail initial LandmarkerRejected). left. split; reflexivity.
Defined.

(** *** Detector calls *)

Lemma fresh_frames_snoc (times : list R) (c d : R) :
  fresh_frames times -> last times d <> c -> fresh_frames (times ++ [c]).
Proof.
induction times as [| a rest IH]; intros Hf Hlast.
- exact I.
- destruct rest as [| b rest'].
  + simpl in *. auto.
  + destruct Hf as [Hab Hf].
    change (a <> b /\ fresh_frames ((b :: rest') ++ [c])).
    split; [exact Hab |]. apply IH; assumption.
Qed.

Lemma frames_recorded_initial : frames_recorded initial.
Proof. unfold frames_recorded. simpl. auto. Qed.

Lemma predictWebcam_frames_recorded (s : Closure) (video : option R)
    (now : R) (results : VisionResult) :
  frames_recorded s ->
  frames_recorded (closure_of (predictWebcam video now results s)).
Proof.
intros [Hf Hlast]. unfold frames_recorded, submitted in *.
destruct (predictWebcam_cases s video) as [Hidle | (ct & -> & Hl & Hnew)].
- destruct (predictWebcam_idle s video now results Hidle)
    as (Hd & Ht & _).
  rewrite Hd, Ht. auto.
- destruct (predictWebcam_called s ct now results Hl Hnew)
    as (Hd & Ht & _).
  rewrite Hd, Ht, map_app. simpl. split.
  + apply fresh_frames_snoc with (d := -1); [exact Hf | congruence].
  + apply last_last.
Qed.

Lemma dispatch_frames_recorded (s : Closure) (e : event) :
  frames_recorded s -> frames_recorded (dispatch s e).
Proof.
intros Hs. unfold dispatch.
destruct e as [notNull | | videoMounted | | video now results
              | video now results | now];
  destruct (waiting s); try exact Hs;
  try (destruct videoMounted; exact Hs).
- unfold onLoadedData. apply predictWebcam_frames_recorded. exact Hs.
- apply predictWebcam_frames_recorded. exact Hs.
Qed.

Lemma run_frames_recorded (es : list event) :
  forall s, frames_recorded s -> frames_recorded (run s es).
Proof.
induction es as [| e es IH]; intros s Hs.
- exact Hs.
- apply IH, dispatch_frames_recorded, Hs.
Qed.

(** What one detection frame does to the detector log. *)
Lemma detection_frame_log (s : Closure) (video : option R) (now : R)
    (results : VisionResult) :
  let s' := dispatch s (DetectionFrame video now results) in
  handLandmarker s' = handLandmarker s /\
  ((detectLog s' = detectLog s /\ lastVideoTime s' = lastVideoTime s /\
    (waiting s <> AwaitFrame \/ handLandmarker s = false \/ video = None \/
     video = Some (lastVideoTime s))) \/
   (exists currentTime,
      video = Some currentTime /\ waiting s = AwaitFrame /\
      handLandmarker s = true /\ currentTime <> lastVideoTime s /\
      detectLog s' = detectLog s ++ [(currentTime, now)] /\
      lastVideoTime s' = currentTime)).
Proof.
intros s'. subst s'. unfold dispatch.
destruct (waiting s) eqn:Hw;
  try (split; [reflexivity | left; repeat split; left; discriminate]).
set (s0 := set_waiting Nothing s).
destruct (predictWebcam_cases s0 video) as [Hidle | (ct & -> & Hl & Hnew)].
- destruct (predictWebcam_idle s0 video now results Hidle)
    as (Hd & Ht & Hh & _).
  split; [exact Hh |]. left. repeat split; try assumption.
  right. exact Hidle.
- destruct (predictWebcam_called s0 ct now results Hl Hnew)
    as (Hd & Ht & Hh & _).
  split; [rewrite Hh; symmetry; exact Hl |]. right. exists ct.
  repeat split; assumption.
Qed.

Lemma scanned_eq :
  scanned =
  mkClosure SCANNING false true 1 (mkInteraction 1 1 0 0 0 0)
    (mkScene (1, 1, 1) 0 0 0 0 0 0) AwaitFrame [SYSTEM_READY; SCANNING]
    [(1, 16)].
Proof.
unfold scanned. rewrite streaming_eq. unfold dispatch, onLoadedData.
cbn [waiting].
rewrite predictWebcam_nobody; try reflexivity. updates. lra.
Qed.

(** The claim of C8 fails for a pair of invocations that follows an
    invocation for the same video time: the detector was called for that
    frame before the pair, and is not called during it. *)
Lemma detection_pair_without_call :
  let pair := [DetectionFrame (Some 1) 32 nobody;
               DetectionFrame (Some 1) 48 nobody] in
  waiting scanned = AwaitFrame /\
  handLandmarker scanned = true /\
  detectLog scanned = [(1, 16)] /\
  detectLog (run scanned pair) = [(1, 16)] /\
  List.length (detectLog (run scanned pair)) <>
  S (List.length (detectLog scanned)).
Proof.
cbv zeta. rewrite scanned_eq.
assert (Hstep : forall now,
  dispatch
    (mkClosure SCANNING false true 1 (mkInteraction 1 1 0 0 0 0)
       (mkScene (1, 1, 1) 0 0 0 0 0 0) AwaitFrame [SYSTEM_READY; SCANNING]
       [(1, 16)]) (DetectionFrame (Some 1) now nobody) =
  mkClosure SCANNING false true 1 (mkInteraction 1 1 0 0 0 0)
    (mkScene (1, 1, 1) 0 0 0 0 0 0) AwaitFrame [SYSTEM_READY; SCANNING]
    [(1, 16)]).
{ intros now. unfold dispatch. cbn [waiting].
  unfold predictWebcam. cbn [handLandmarker set_waiting negb lastVideoTime].
  destruct (Req_dec_T 1 1); [reflexivity | congruence]. }
unfold run. cbn [fold_left]. rewrite !Hstep.
repeat split. cbn [List.length detectLog]. discriminate.
Qed.

(** C8 (amended): of two consecutive detection-cycle invocations with the
    same video time, the second never calls the detector, since the stored
    video time equals the current one; the pair calls it at most once:
    exactly once when that time is new at the first invocation, and not at
    all when it is the stored one.  Over the whole run no detector call
    repeats the video time of the call before it. *)
Theorem detection_deduplicated (s : Closure) (currentTime n1 n2 : R)
    (r1 r2 : VisionResult) :
  let s1 := dispatch s (DetectionFrame (Some currentTime) n1 r1) in
  let s2 := dispatch s1 (DetectionFrame (Some currentTime) n2 r2) in
  detectLog s2 = detectLog s1 /\
  (List.length (detectLog s2) <= S (List.length (detectLog s)))%nat /\
  (waiting s = AwaitFrame -> handLandmarker s = true ->
   currentTime <> lastVideoTime s ->
   lastVideoTime s1 = currentTime /\
   detectLog s2 = detectLog s ++ [(currentTime, n1)] /\
   List.length (detectLog s2) = S (List.length (detectLog s))) /\
  (currentTime = lastVideoTime s -> detectLog s2 = detectLog s) /\
  (forall es, fresh_frames (submitted (run initial es))).
Proof.
intros s1 s2.
destruct (detection_frame_log s (Some currentTime) n1 r1)
  as (Hh1 & H1).
fold s1 in Hh1, H1.
destruct (detection_frame_log s1 (Some currentTime) n2 r2)
  as (Hh2 & H2).
fold s2 in Hh2, H2.
assert (Hsecond : detectLog s2 = detectLog s1).
{ destruct H2 as [(Hd2 & _) | (ct & Hct & Hw2 & Hl2 & Hnew2 & _)];
    [exact Hd2 |].
  injection Hct as <-. exfalso.
  destruct H1 as [(_ & Ht1 & Hwhy) | (ct & Hct & _ & _ & _ & _ & Ht1)].
  - destruct Hwhy as [Hw | [Hl | [Hv | Hv]]].
    + assert (s1 = s)
        by (subst s1; unfold dispatch; destruct (waiting s); congruence).
      congruence.
    + congruence.
    + discriminate.
    + injection Hv as Hv. congruence.
  - injection Hct as <-. congruence. }
split; [exact Hsecond |].
split.
{ rewrite Hsecond.
  destruct H1 as [(Hd1 & _) | (ct & _ & _ & _ & _ & Hd1 & _)];
    rewrite Hd1; [lia |].
  rewrite length_app. simpl. lia. }
split.
{ intros Hw Hl Hnew. rewrite Hsecond.
  destruct H1 as [(_ & _ & Hwhy) | (ct & Hct & _ & _ & _ & Hd1 & Ht1)].
  - exfalso. destruct Hwhy as [Hw' | [Hl' | [Hv | Hv]]];
      [congruence | congruence | discriminate |].
    injection Hv as Hv. congruence.
  - injection Hct as <-. rewrite Hd1, length_app. simpl.
    repeat split; [exact Ht1 | lia]. }
split.
{ intros Hsame. rewrite Hsecond.
  destruct H1 as [(Hd1 & _) | (ct & Hct & _ & _ & Hnew & _)];
    [exact Hd1 |].
  injection Hct as <-. contradiction. }
intros es. apply (run_frames_recorded es initial frames_recorded_initial).
Qed.

Lemma detection_deduplicated_witness :
  detectLog
    (run scanned
       [DetectionFrame (Some 2) 32 nobody; DetectionFrame (Some 2) 48 nobody])
  = detectLog scanned ++ [(2, 32)].
Proof.
destruct (detection_deduplicated scanned 2 32 48 nobody nobody)
  as (_ & _ & Hnew & _).
apply Hnew; rewrite scanned_eq.
- reflexivity.
- reflexivity.
- cbn [lastVideoTime]. lra.
Defined.

End Pipeline.

(* ------------------------------------------------------------------ *)
(** * Further properties of the code *)

(** ** The vertex shader along a cycle *)

Section Cycle.
Import Glsl Shader.

Lemma glsl_mod_periodic (a y : R) (k : Z) :
  y <> 0 -> glsl_mod (a + IZR k * y) y = glsl_mod a y.
Proof.
intros Hy. unfold glsl_mod, floor.
replace ((a + IZR k * y) / y) with (a / y + IZR k) by (field; exact Hy).
rewrite Zfloor_addz, plus_IZR. ring.
Qed.

Lemma glsl_mod_advance (a d y : R) :
  0 < y -> 0 <= glsl_mod a y + d < y ->
  glsl_mod (a + d) y = glsl_mod a y + d.
Proof.
intros Hy. unfold glsl_mod, floor. intros [Hlo Hhi].
assert (Hi : 0 < / y) by (apply Rinv_0_lt_compat; exact Hy).
rewrite (Zfloor_eq (Zfloor (a / y)) ((a + d) / y)); [ring |].
split.
- apply Rmult_le_reg_r with (r := y); [exact Hy |].
  unfold Rdiv. rewrite Rmult_assoc, Rinv_l by lra. lra.
- apply Rmult_lt_reg_r with (r := y); [exact Hy |].
  unfold Rdiv. rewrite Rmult_assoc, Rinv_l by lra. lra.
Qed.

Lemma wrapped_radius_bounds (uTime aSpeed aOffset : R) :
  0 <= r uTime aSpeed aOffset < maxRadius.
Proof. unfold r. apply glsl_mod_range. unfold maxRadius. lra. Qed.

(** X1: the lifecycle of a particle repeats with period
    [maxRadius / (aSpeed * 0.8)]: shifting the time by a whole number of
    periods changes neither the radius, nor the opacity, nor the growth
    factor. *)
Theorem cycle_period (uTime aSpeed aOffset : R) (aDirection : vec3)
    (k : Z) :
  aSpeed <> 0 ->
  let period := maxRadius / (aSpeed * 0.8) in
  let later := main (uTime + IZR k * period) aOffset aSpeed aDirection in
  let sooner := main uTime aOffset aSpeed aDirection in
  r (uTime + IZR k * period) aSpeed aOffset = r uTime aSpeed aOffset /\
  v_alpha later = v_alpha sooner /\
  v_growth later = v_growth sooner.
Proof.
intros Hs period later sooner.
assert (E : r (uTime + IZR k * period) aSpeed aOffset =
            r uTime aSpeed aOffset).
{ unfold r, t.
  replace ((uTime + IZR k * period) * aSpeed * 0.8 + aOffset)
    with (uTime * aSpeed * 0.8 + aOffset + IZR k * maxRadius)
    by (unfold period; field; split; [lra | exact Hs]).
  apply glsl_mod_periodic. unfold maxRadius. lra. }
subst later sooner. unfold main. cbn [v_alpha v_growth].
rewrite E. repeat split.
Qed.

Lemma cycle_period_witness :
  r (3 + IZR 2 * (maxRadius / (0.5 * 0.8))) 0.5 1 = r 3 0.5 1.
Proof.
apply (cycle_period 3 0.5 1 (0, 1, 0) 2). lra.
Defined.

(** X2: between two wraps the radius advances linearly, by
    [0.8 * aSpeed] per unit of time; and at time 0 a particle whose offset
    lies in the cycle sits at that offset. *)
Theorem radius_advances_linearly (uTime dt aSpeed aOffset : R) :
  0 <= r uTime aSpeed aOffset + dt * aSpeed * 0.8 < maxRadius ->
  r (uTime + dt) aSpeed aOffset =
  r uTime aSpeed aOffset + dt * aSpeed * 0.8 /\
  (0 <= aOffset < maxRadius -> r 0 aSpeed aOffset = aOffset).
Proof.
intros H. split.
- unfold r, t in *.
  replace ((uTime + dt) * aSpeed * 0.8 + aOffset)
    with (uTime * aSpeed * 0.8 + aOffset + dt * aSpeed * 0.8) by ring.
  apply glsl_mod_advance; [unfold maxRadius; lra | exact H].
- intros Ho. unfold r, t, glsl_mod, floor.
  rewrite (Zfloor_eq 0%Z); unfold maxRadius in *; lra.
Qed.

Lemma radius_advances_linearly_witness :
  r (0 + 5) 0.5 1 = r 0 0.5 1 + 5 * 0.5 * 0.8.
Proof.
assert (E : r 0 0.5 1 = 1).
{ unfold r, t, glsl_mod, floor, maxRadius.
  rewrite (Zfloor_eq 0%Z); lra. }
apply (radius_advances_linearly 0 5 0.5 1).
rewrite E. unfold maxRadius. lra.
Defined.

Lemma twist_preserves (c s a b : R) :
  s * s + c * c = 1 ->
  (c * a + s * b) ^ 2 + (- s * a + c * b) ^ 2 = a ^ 2 + b ^ 2.
Proof.
intros H.
replace ((c * a + s * b) ^ 2 + (- s * a + c * b) ^ 2)
  with ((s * s + c * c) * (a ^ 2 + b ^ 2)) by ring.
rewrite H. ring.
Qed.

Lemma sin_cos_one (a : R) : sin a * sin a + cos a * cos a = 1.
Proof. pose proof (sin2_cos2 a) as H. unfold Rsqr in H. exact H. Qed.

Lemma drift_bound (a : R) : -0.1 <= sin a * 0.1 <= 0.1.
Proof. pose proof (SIN_bound a). lra. Qed.

(** X3: the spiral twist is a rotation about the vertical axis: it keeps
    the distance of the particle from that axis; the vertical drift is at
    most 0.1; so a particle with a unit direction stays within
    [maxRadius] of the axis and within [maxRadius + 0.1] of the
    horizontal plane, at every time. *)
Theorem particle_stays_in_volume (uTime aOffset aSpeed dx dy dz : R) :
  dx ^ 2 + dy ^ 2 + dz ^ 2 = 1 ->
  let rr := r uTime aSpeed aOffset in
  let '(px, py, pz) := v_pos (main uTime aOffset aSpeed (dx, dy, dz)) in
  px ^ 2 + pz ^ 2 = (dx ^ 2 + dz ^ 2) * rr ^ 2 /\
  Rabs (py - dy * rr) <= 0.1 /\
  px ^ 2 + (py - sin (uTime * 2 + aOffset) * 0.1) ^ 2 + pz ^ 2 = rr ^ 2 /\
  px ^ 2 + pz ^ 2 < maxRadius ^ 2 /\
  Rabs py < maxRadius + 0.1.
Proof.
intros Hunit rr. unfold main. cbn [v_pos]. fold rr. unfold pos.
cbv beta iota zeta.
pose proof (twist_preserves (cos (angle rr)) (sin (angle rr))
              (dx * rr) (dz * rr) (sin_cos_one (angle rr))) as Htw.
pose proof (drift_bound (uTime * 2 + aOffset)) as Hdr.
destruct (wrapped_radius_bounds uTime aSpeed aOffset) as [Hr0 Hr6].
fold rr in Hr0, Hr6. unfold maxRadius in *.
assert (Hd2 : dx ^ 2 + dz ^ 2 <= 1) by nra.
assert (Hdy : -1 <= dy <= 1) by nra.
split; [rewrite Htw; ring |].
split; [apply Rabs_le; lra |].
split.
{ set (px := cos (angle rr) * (dx * rr) + sin (angle rr) * (dz * rr)) in *.
  set (pz := - sin (angle rr) * (dx * rr) + cos (angle rr) * (dz * rr)) in *.
  replace (dy * rr + sin (uTime * 2 + aOffset) * 0.1 -
           sin (uTime * 2 + aOffset) * 0.1) with (dy * rr) by ring.
  replace (px ^ 2 + (dy * rr) ^ 2 + pz ^ 2)
    with (px ^ 2 + pz ^ 2 + (dy * rr) ^ 2) by ring.
  rewrite Htw. rewrite <- (Rmult_1_l (rr ^ 2)), <- Hunit. ring. }
split; [rewrite Htw; nra |].
apply Rabs_def1; nra.
Qed.

Lemma particle_stays_in_volume_witness :
  let '(px, py, pz) := v_pos (main 2 1 0.5 (0, 1, 0)) in
  px ^ 2 + pz ^ 2 < maxRadius ^ 2 /\ Rabs py < maxRadius + 0.1.
Proof.
pose proof (particle_stays_in_volume 2 1 0.5 0 1 0 ltac:(lra)) as H.
cbv zeta in H.
destruct (v_pos (main 2 1 0.5 (0, 1, 0))) as [[px py] pz].
destruct H as (_ & _ & _ & H1 & H2). split; assumption.
Defined.

End Cycle.

(** ** Size and opacity *)

Section Visibility.
Import Glsl Shader Raster.

Lemma clamp_monotone (a b lo hi : R) :
  a <= b -> clamp a lo hi <= clamp b lo hi.
Proof.
intros H. unfold clamp, Rmin, Rmax. repeat destruct Rle_dec; lra.
Qed.

Lemma hermite_monotone (u v : R) :
  0 <= u -> u <= v -> v <= 1 ->
  u * u * (3 - 2 * u) <= v * v * (3 - 2 * v).
Proof.
intros Hu Huv Hv.
assert (E : v * v * (3 - 2 * v) - u * u * (3 - 2 * u) =
            (v - u) * (u * (3 - 2 * u) + v * (3 - 2 * v) - 2 * u * v))
  by ring.
assert (H1 : u <= u * (3 - 2 * u)) by nra.
assert (H2 : v <= v * (3 - 2 * v)) by nra.
assert (H3 : 0 <= u + v - 2 * u * v) by nra.
assert (0 <= (v - u) * (u * (3 - 2 * u) + v * (3 - 2 * v) - 2 * u * v))
  by (apply Rmult_le_pos; lra).
lra.
Qed.

Lemma smoothstep_monotone (e0 e1 a b : R) :
  e0 < e1 -> a <= b -> smoothstep e0 e1 a <= smoothstep e0 e1 b.
Proof.
intros He Hab. unfold smoothstep.
assert (Hi : 0 < / (e1 - e0)) by (apply Rinv_0_lt_compat; lra).
assert (Hq : (a - e0) / (e1 - e0) <= (b - e0) / (e1 - e0))
  by (unfold Rdiv; apply Rmult_le_compat_r; lra).
pose proof (clamp_monotone _ _ 0 1 Hq) as Hc.
pose proof (clamp_range ((a - e0) / (e1 - e0)) 0 1 ltac:(lra)) as [Ha0 _].
pose proof (clamp_range ((b - e0) / (e1 - e0)) 0 1 ltac:(lra)) as [_ Hb1].
apply hermite_monotone; assumption.
Qed.

(** X4: the point size is inversely proportional to the depth in front of
    the camera; the growth factor makes it run from half the base size at
    the origin to the full base size from radius 1 on, never decreasing
    with the radius. *)
Theorem point_size_profile (dist mvPosition_z : R) :
  mvPosition_z < 0 ->
  sizeBase / 2 / - mvPosition_z <= gl_PointSize dist mvPosition_z
    <= sizeBase / - mvPosition_z /\
  (dist <= 0 -> gl_PointSize dist mvPosition_z = sizeBase / 2 / - mvPosition_z) /\
  (1 <= dist -> gl_PointSize dist mvPosition_z = sizeBase / - mvPosition_z) /\
  (forall dist', dist <= dist' ->
     gl_PointSize dist mvPosition_z <= gl_PointSize dist' mvPosition_z).
Proof.
intros Hz. unfold gl_PointSize, growth, sizeBase.
assert (Hi : 0 < / - mvPosition_z) by (apply Rinv_0_lt_compat; lra).
pose proof (smoothstep_range 0 1 dist) as Hg.
unfold Rdiv. rewrite !Rmult_1_l.
split; [split; nra |].
split; [intros Hd; rewrite smoothstep_below by lra; lra |].
split; [intros Hd; rewrite smoothstep_above by lra; lra |].
intros dist' Hd.
pose proof (smoothstep_monotone 0 1 dist dist' ltac:(lra) Hd). nra.
Qed.

Lemma point_size_profile_witness :
  gl_PointSize 2 (-10) = sizeBase / - (-10).
Proof.
apply (point_size_profile 2 (-10)); lra.
Defined.

(** X5: along the cycle the opacity first never decreases and then never
    increases: it is non-decreasing up to 70% of [maxRadius] and
    non-increasing from 10% of [maxRadius] on. *)
Theorem alpha_rises_then_falls (r1 r2 : R) :
  r1 <= r2 ->
  (r2 <= 0.7 * maxRadius -> vAlpha r1 <= vAlpha r2) /\
  (0.1 * maxRadius <= r1 -> vAlpha r2 <= vAlpha r1).
Proof.
intros H12. unfold vAlpha, fadeIn, fadeOut, normalizedR, maxRadius.
assert (Hn : r1 / 6 <= r2 / 6) by lra.
split; intros Hr.
- rewrite !(smoothstep_below 0.7 1) by lra.
  pose proof (smoothstep_monotone 0 0.1 _ _ ltac:(lra) Hn). lra.
- rewrite !(smoothstep_above 0 0.1) by lra.
  pose proof (smoothstep_monotone 0.7 1 _ _ ltac:(lra) Hn). lra.
Qed.

Lemma alpha_rises_then_falls_witness :
  vAlpha 0.1 <= vAlpha 0.2 /\ vAlpha 5.5 <= vAlpha 5.
Proof.
split.
- apply (alpha_rises_then_falls 0.1 0.2); unfold maxRadius; lra.
- apply (alpha_rises_then_falls 5 5.5); unfold maxRadius; lra.
Defined.

Lemma fragment_kept (uTexture : vec2 -> vec4) (uColor : vec3)
    (a : R) (gl_PointCoord : vec2) (out : vec4) :
  fragmentShader uTexture uColor a gl_PointCoord = Some out ->
  let texColor := uTexture (uv gl_PointCoord) in
  0.05 <= alpha texColor /\
  red out = fst (fst uColor) * 2.2 * red texColor * a /\
  green out = snd (fst uColor) * 2.2 * green texColor * a /\
  blue out = snd uColor * 2.2 * blue texColor * a /\
  alpha out = alpha texColor * a.
Proof.
unfold fragmentShader. cbv zeta.
destruct (uTexture (uv gl_PointCoord)) as [[[tr tg] tb] ta].
destruct uColor as [[cr cg] cb].
destruct (Rlt_dec ta 0.05) as [Hlt | Hge]; [discriminate |].
intros E. injection E as <-. unfold red, green, blue, alpha. simpl.
repeat split; lra.
Qed.

(** X6: the fragment shader drops exactly the fragments whose texel has
    an alpha below 0.05.  A fragment it keeps carries the texel alpha
    times the opacity of the particle, so for a texel and a color with
    channels in [0, 1] its alpha is at most the opacity of the particle
    and its color channels at most 2.2 times that opacity; at the birth of
    a particle (radius 0) the fragment is fully transparent black. *)
Theorem fragment_follows_opacity (uTexture : vec2 -> vec4) (uColor : vec3)
    (uTime aOffset aSpeed : R) (aDirection : vec3) (gl_PointCoord : vec2) :
  let a := v_alpha (main uTime aOffset aSpeed aDirection) in
  let texColor := uTexture (uv gl_PointCoord) in
  (fragmentShader uTexture uColor a gl_PointCoord = None <->
   alpha texColor < 0.05) /\
  (forall out,
     fragmentShader uTexture uColor a gl_PointCoord = Some out ->
     unit_color4 texColor -> unit_color3 uColor ->
     0.05 * a <= alpha out <= a /\ a <= 1 /\
     0 <= red out <= 2.2 * a /\
     0 <= green out <= 2.2 * a /\
     0 <= blue out <= 2.2 * a) /\
  (forall out,
     fragmentShader uTexture uColor a gl_PointCoord = Some out ->
     r uTime aSpeed aOffset = 0 ->
     out = (0, 0, 0, 0)).
Proof.
intros a texColor.
assert (Ha : 0 <= a <= 1) by (subst a; unfold main; apply vAlpha_range).
split; [| split].
- subst texColor. unfold fragmentShader.
  destruct (uTexture (uv gl_PointCoord)) as [[[tr tg] tb] ta].
  destruct uColor as [[cr cg] cb]. unfold alpha. simpl.
  destruct (Rlt_dec ta 0.05); split; intros H;
    try reflexivity; try assumption; try discriminate; contradiction.
- intros out Hout Ht Hc.
  destruct (fragment_kept _ _ _ _ _ Hout) as (Hta & Hr & Hg & Hb & Hal).
  fold texColor in Hta, Hr, Hg, Hb, Hal.
  destruct texColor as [[[tr tg] tb] ta].
  destruct uColor as [[cr cg] cb].
  unfold unit_color4, unit_color3 in *.
  unfold red, green, blue, alpha in *. simpl in *.
  destruct Ht as (Htr & Htg & Htb & Hta1).
  destruct Hc as (Hcr & Hcg & Hcb).
  rewrite Hr, Hg, Hb, Hal.
  assert (0 <= cr * tr <= 1) by nra.
  assert (0 <= cg * tg <= 1) by nra.
  assert (0 <= cb * tb <= 1) by nra.
  repeat split; nra.
- intros out Hout Hr0.
  destruct (fragment_kept _ _ _ _ _ Hout) as (_ & Hr & Hg & Hb & Hal).
  assert (Ha0 : a = 0).
  { subst a. unfold main. cbn [v_alpha]. rewrite Hr0. apply vAlpha_at_birth. }
  rewrite Ha0 in Hr, Hg, Hb, Hal.
  destruct out as [[[o1 o2] o3] o4].
  unfold red, green, blue, alpha in *. simpl in *.
  repeat f_equal; lra.
Qed.

Lemma fragment_follows_opacity_witness :
  fragmentShader (fun _ => (1, 1, 1, 1)) (1, 0.5, 0) 
    (v_alpha (main 0 0 0.5 (0, 1, 0))) (0.5, 0.5) = Some (0, 0, 0, 0).
Proof.
pose proof (fragment_follows_opacity (fun _ => (1, 1, 1, 1)) (1, 0.5, 0)
              0 0 0.5 (0, 1, 0) (0.5, 0.5)) as (_ & _ & Hbirth).
assert (Hr : r 0 0.5 0 = 0).
{ unfold r, t, glsl_mod, floor, maxRadius. rewrite (Zfloor_eq 0%Z); lra. }
destruct (fragmentShader (fun _ => (1, 1, 1, 1)) (1, 0.5, 0)
            (v_alpha (main 0 0 0.5 (0, 1, 0))) (0.5, 0.5)) as [out |] eqn:E.
- rewrite (Hbirth out eq_refl Hr). reflexivity.
- exfalso. unfold fragmentShader in E. cbv beta iota zeta in E.
  destruct (Rlt_dec 1 0.05); [lra | discriminate].
Defined.

End Visibility.

(** ** The particle descriptors *)

Section Descriptors.
Import Field Runs.

Lemma triples_snoc (n : nat) :
  forall (l : list R) (a b c : R),
    List.length l = (3 * n)%nat ->
    triples (l ++ [a; b; c]) = triples l ++ [(a, b, c)].
Proof.
induction n as [| n IH]; intros l a b c Hl.
- destruct l; [reflexivity | discriminate].
- destruct l as [| u [| v [| w l]]]; try (simpl in Hl; lia).
  simpl. rewrite IH; [reflexivity |]. simpl in Hl. lia.
Qed.

Lemma sphere_point_unit (phi theta : R) :
  unit_vector (sin phi * cos theta, sin phi * sin theta, cos phi).
Proof.
unfold unit_vector.
pose proof (sin_cos_one phi) as Hp. pose proof (sin_cos_one theta) as Ht.
replace ((sin phi * cos theta) ^ 2 + (sin phi * sin theta) ^ 2 + cos phi ^ 2)
  with (sin phi * sin phi * (sin theta * sin theta + cos theta * cos theta) +
        cos phi * cos phi) by ring.
rewrite Ht. lra.
Qed.

Lemma forLoop_directions_ok (rnd : random) (count : R) (fuel : nat) :
  forall i k b b' k',
    forLoop fuel rnd count i k b = Some (b', k') ->
    directions_ok b -> directions_ok b'.
Proof.
induction fuel as [| fuel IH]; intros i k b b' k' Hrun Hb; [discriminate |].
simpl in Hrun. destruct (Rlt_dec (INR i) count).
- apply IH in Hrun; [exact Hrun |].
  destruct Hb as [Hlen Hall]. unfold directions_ok. cbn [directions offsets].
  split.
  + rewrite !length_app, Hlen. simpl. lia.
  + rewrite (triples_snoc (List.length (offsets b))) by exact Hlen.
    apply Forall_app. split; [exact Hall |].
    constructor; [apply sphere_point_unit | constructor].
- injection Hrun as <- _. exact Hb.
Qed.

Lemma forLoop_ranges_ok (rnd : random) (count : R) (fuel : nat) :
  (forall k, 0 <= rnd k < 1) ->
  forall i k b b' k',
    forLoop fuel rnd count i k b = Some (b', k') ->
    ranges_ok b -> ranges_ok b'.
Proof.
intros Hrnd.
induction fuel as [| fuel IH]; intros i k b b' k' Hrun Hb; [discriminate |].
simpl in Hrun. destruct (Rlt_dec (INR i) count).
- apply IH in Hrun; [exact Hrun |].
  destruct Hb as (Hlen & Ho & Hs). unfold ranges_ok.
  cbn [directions offsets speeds].
  pose proof (Hrnd (k + 2)%nat). pose proof (Hrnd (k + 3)%nat).
  split; [rewrite !length_app, Hlen; reflexivity |].
  split; apply Forall_app; (split; [assumption |]);
    (constructor; [unfold Shader.maxRadius; lra | constructor]).
- injection Hrun as <- _. exact Hb.
Qed.

Lemma forEachBody_group (fuel : nat) (rnd : random) (all : list item)
    (it : item) (index k : nat) (g : group) (k' : nat) :
  forEachBody fuel rnd all it index k = Some (g, k') ->
  g_item g = it /\ g_index g = index /\
  directions_ok (g_buffers g) /\
  ((forall j, 0 <= rnd j < 1) -> ranges_ok (g_buffers g) /\ font_ok g).
Proof.
unfold forEachBody.
destruct (forLoop fuel rnd (totalParticles / INR (List.length all)) 0 k empty)
  as [[b k1] |] eqn:Hloop; [| discriminate].
assert (Hd : directions_ok b).
{ apply (forLoop_directions_ok _ _ _ _ _ _ _ _ Hloop).
  split; [reflexivity | constructor]. }
assert (Hr : (forall j, 0 <= rnd j < 1) -> ranges_ok b).
{ intros Hrnd. apply (forLoop_ranges_ok _ _ _ Hrnd _ _ _ _ _ Hloop).
  split; [reflexivity | split; constructor]. }
destruct (String.eqb (type it) "text") eqn:Ht; intros E; injection E as <- _;
  cbn [g_item g_index g_buffers];
  (split; [reflexivity |]); (split; [reflexivity |]);
  (split; [exact Hd |]); intros Hrnd; (split; [apply Hr; exact Hrnd |]);
  unfold font_ok; cbn [g_item g_font]; rewrite Ht; [| reflexivity].
pose proof (Hrnd k1) as [Hlo Hhi].
match goal with |- context [Zfloor ?p] => set (pick := p) end.
assert (Hp : 0 <= pick < 6) by (unfold pick; simpl; lra).
assert (Hz : (0 <= Zfloor pick < 6)%Z).
{ pose proof (Zfloor_bound pick) as [Hf Hc].
  split.
  - apply Zfloor_lub. simpl. lra.
  - apply lt_IZR. lra. }
destruct (nth_error fonts (Z.to_nat (Zfloor pick))) as [f |] eqn:Ef.
- exists f. split; [reflexivity |]. eapply nth_error_In. exact Ef.
- apply nth_error_None in Ef. change (List.length fonts) with 6%nat in Ef. lia.
Qed.

Lemma forEach_groups (fuel : nat) (rnd : random) (all rest : list item) :
  forall index k gs,
    forEach fuel rnd all rest index k = Some gs ->
    map g_item gs = rest /\
    map g_index gs = seq index (List.length rest) /\
    Forall (fun g => directions_ok (g_buffers g)) gs /\
    ((forall j, 0 <= rnd j < 1) ->
     Forall (fun g => ranges_ok (g_buffers g) /\ font_ok g) gs).
Proof.
induction rest as [| it rest IH]; intros index k gs Hrun.
- injection Hrun as <-. repeat split; constructor.
- simpl in Hrun.
  destruct (forEachBody fuel rnd all it index k) as [[g k1] |] eqn:Hb;
    [| discriminate].
  destruct (forEach fuel rnd all rest (S index) k1) as [gs' |] eqn:Hrest;
    [| discriminate].
  injection Hrun as <-.
  destruct (forEachBody_group _ _ _ _ _ _ _ _ Hb) as (Hi & Hx & Hd & Hr).
  destruct (IH _ _ _ Hrest) as (Hi' & Hx' & Hd' & Hr').
  simpl. rewrite Hi, Hx, Hi', Hx'. repeat split.
  + constructor; assumption.
  + intros Hrnd. constructor; [apply Hr | apply Hr']; exact Hrnd.
Qed.

(** X7: whatever [Math.random()] returns, [initScene] builds its groups in
    the order of [items], one per item, and gives every particle a
    direction of length 1: the direction array of each group holds three
    numbers per particle, and each triple is a unit vector. *)
Theorem directions_are_unit (fuel : nat) (rnd : random) :
  (78 < fuel)%nat ->
  exists gs,
    initScene fuel rnd = Some gs /\
    map g_item gs = items /\
    map g_index gs = seq 0 18 /\
    Forall (fun g =>
              List.length (directions (g_buffers g)) =
              (3 * particleCount g)%nat /\
              Forall unit_vector (triples (directions (g_buffers g)))) gs.
Proof.
intros Hfuel.
destruct (forEach_counts fuel rnd items Hfuel 0%nat 0%nat) as (gs & Hrun & _).
exists gs. split; [exact Hrun |].
destruct (forEach_groups _ _ _ _ _ _ _ Hrun) as (Hi & Hx & Hd & _).
repeat split; assumption.
Qed.

Lemma directions_are_unit_witness :
  exists gs,
    initScene 79 (fun _ => 0.5) = Some gs /\
    map g_item gs = items.
Proof.
destruct (directions_are_unit 79 (fun _ => 0.5)) as (gs & Hrun & Hi & _).
- lia.
- exists gs. split; assumption.
Defined.



End Descriptors.

(** ** Who writes what, and when the detection loop ends *)

Section Writers.
Import Canvas Samples Runs.

(** [predictWebcam] never writes the smoothed values, the scene or the
    loading flag, on any path, the failing ones included. *)
Lemma predictWebcam_keeps_currents (s : Closure) (video : option R)
    (now : R) (results : VisionResult) :
  let s' := closure_of (predictWebcam video now results s) in
  currents s' = currents s /\ scene s' = scene s /\
  isLoading s' = isLoading s.
Proof.
destruct s as [st il hl lvt [ts cs tx ty cx cy] sc w sl dl].
unfold predictWebcam, currents. cbn [handLandmarker lastVideoTime].
destruct hl; cbn [negb]; [| updates; auto].
destruct video as [currentTime |]; [| updates; auto].
destruct (Req_dec_T currentTime lvt); [updates; auto |].
destruct (landmarks results) as [[| hand others] |];
  [updates; auto | | updates; auto].
destruct (nth_error hand 4); destruct (nth_error hand 8);
  destruct (nth_error hand 9); updates; auto.
Qed.

(** X10: the two loops write disjoint parts of the state.  An event other
    than a render frame leaves the three smoothed values and the scene as
    they are; a render frame leaves the three targets, the status, the
    loading flag, the stored video time, the detector calls and the
    pending callback as they are. *)
Theorem writers_are_disjoint (s : Closure) (e : event) :
  match e with
  | RenderFrame _ =>
      targets (dispatch s e) = targets s /\
      status (dispatch s e) = status s /\
      statusLog (dispatch s e) = statusLog s /\
      isLoading (dispatch s e) = isLoading s /\
      lastVideoTime (dispatch s e) = lastVideoTime s /\
      detectLog (dispatch s e) = detectLog s /\
      handLandmarker (dispatch s e) = handLandmarker s /\
      waiting (dispatch s e) = waiting s
  | _ =>
      currents (dispatch s e) = currents s /\
      scene (dispatch s e) = scene s
  end.
Proof.
unfold dispatch.
destruct e as [notNull | | videoMounted | | video now results
              | video now results | now];
  destruct (waiting s) eqn:Hw; try (split; reflexivity);
  try (repeat split; assumption).
- destruct (predictWebcam_keeps_currents
              (setStatus SYSTEM_READY (setIsLoading false (set_waiting Nothing s)))
              video now results) as (Hc & Hs & _).
  unfold onLoadedData. split; assumption.
- destruct (predictWebcam_keeps_currents (set_waiting Nothing s)
              video now results) as (Hc & Hs & _).
  split; assumption.
Qed.






End Writers.

(** ** Sessions *)

Section Sessions.
Import Canvas Samples Runs.

(** What an invocation of [predictWebcam] does to the status. *)
Lemma predictWebcam_status_log (s : Closure) (video : option R) (now : R)
    (results : VisionResult) :
  let s' := closure_of (predictWebcam video now results s) in
  (waiting s' = AwaitFrame \/ waiting s' = waiting s) /\
  (status s' = status s /\ statusLog s' = statusLog s \/
   exists v, (v = HAND_LOCKED \/ v = SCANNING) /\
             status s' = v /\ statusLog s' = statusLog s ++ [v]).
Proof.
destruct (predictWebcam_cases s video) as [Hidle | (ct & -> & Hl & Hnew)].
- destruct (predictWebcam_idle s video now results Hidle)
    as (_ & _ & _ & Hs & Hlog & Hw).
  split; [exact Hw | left; split; assumption].
- destruct (predictWebcam_called s ct now results Hl Hnew)
    as (_ & _ & _ & Hs & Hlog & Hw).
  split; [exact Hw |]. right.
  exists (if hasHand results then HAND_LOCKED else SCANNING).
  split; [destruct (hasHand results); auto | split; assumption].
Qed.

Lemma loading_stage_predictWebcam (s : Closure) (video : option R)
    (now : R) (results : VisionResult) :
  isLoading s = false -> status s <> INITIALIZING ->
  loading_stage (closure_of (predictWebcam video now results s)).
Proof.
intros Hl Hs. right.
destruct (predictWebcam_keeps_currents s video now results) as (_ & _ & Hil).
destruct (predictWebcam_status_log s video now results)
  as (_ & [[Hst _] | (v & Hv & Hst & _)]).
- split; congruence.
- split; [congruence |]. rewrite Hst.
  destruct Hv as [-> | ->]; discriminate.
Qed.

Lemma loading_stage_dispatch (s : Closure) (e : event) :
  loading_stage s -> loading_stage (dispatch s e).
Proof.
intros Hs. unfold dispatch.
destruct e as [notNull | | videoMounted | | video now results
              | video now results | now];
  destruct (waiting s) eqn:Hw; try exact Hs;
  try (right; split; [reflexivity | discriminate]);
  try (unfold onLoadedData; apply loading_stage_predictWebcam;
       [reflexivity | discriminate]);
  try (destruct Hs as [(_ & _ & Hn) | (Hl & Hst)];
       [contradiction | apply loading_stage_predictWebcam; assumption]);
  try (destruct Hs as [(Hl & Hst & Hn) | Hs];
       [ left; repeat split; try assumption; cbn; rewrite ?Hw;
         try destruct videoMounted; discriminate
       | right; exact Hs ]).
Qed.

(** X13: in every state the component reaches, the loading flag is up
    exactly when the status is "INITIALIZING...": it is cleared together
    with the first change of status and never raised again. *)
Theorem loading_iff_initializing (es : list event) :
  isLoading (run initial es) = true <->
  status (run initial es) = INITIALIZING.
Proof.
assert (H : forall l s, loading_stage s -> loading_stage (run s l)).
{ induction l as [| e l IH]; intros s Hs; [exact Hs |].
  apply IH, loading_stage_dispatch, Hs. }
assert (Hi : loading_stage initial)
  by (left; repeat split; discriminate).
destruct (H es initial Hi) as [(Hl & Hs & _) | (Hl & Hs)].
- split; intros _; assumption.
- split; intros E; [congruence | contradiction].
Qed.




End Sessions.

(** ** Tilt, convergence and the detector log *)

Section Bounds.
Import Canvas Samples Runs.

Lemma tilt_in_range_predictWebcam (s : Closure) (video : option R)
    (now : R) (results : VisionResult) :
  palm_in_frame results -> tilt_in_range s ->
  tilt_in_range (closure_of (predictWebcam video now results s)).
Proof.
intros Hp Hs.
destruct s as [st il hl lvt [ts cs tx ty cx cy] sc w sl dl].
unfold tilt_in_range in *. cbn [interaction targetTiltX targetTiltY
  currentTiltX currentTiltY] in Hs.
unfold predictWebcam, palm_in_frame in *.
cbn [handLandmarker lastVideoTime].
destruct hl; cbn [negb]; [| updates; exact Hs].
destruct video as [currentTime |]; [| updates; exact Hs].
destruct (Req_dec_T currentTime lvt); [updates; exact Hs |].
destruct (landmarks results) as [[| hand others] |];
  [updates; exact Hs | | updates; exact Hs].
destruct (nth_error hand 4); destruct (nth_error hand 8);
  destruct (nth_error hand 9) as [handCenter |];
  updates; try exact Hs.
destruct Hp as [Hx Hy]. destruct Hs as (_ & _ & Hcx & Hcy).
repeat split; lra.
Qed.

Lemma tilt_in_range_animate (now : R) (s : Closure) :
  tilt_in_range s -> tilt_in_range (animate now s).
Proof.
unfold tilt_in_range, animate.
cbn [interaction set_scene set_interaction targetTiltX targetTiltY
     currentTiltX currentTiltY].
rewrite !smooth_convex. intros (Hx & Hy & Hcx & Hcy). repeat split; lra.
Qed.

Lemma tilt_in_range_dispatch (s : Closure) (e : event) :
  event_in_frame e -> tilt_in_range s -> tilt_in_range (dispatch s e).
Proof.
intros He Hs. unfold dispatch.
destruct e as [notNull | | videoMounted | | video now results
              | video now results | now];
  destruct (waiting s) eqn:Hw; try exact Hs;
  try (apply tilt_in_range_animate; exact Hs);
  try (unfold onLoadedData);
  apply tilt_in_range_predictWebcam; assumption.
Qed.

(** X15: the tilt targets are three times the offset of the palm center
    from the middle of the frame; so as long as every detected palm
    center lies in the frame (coordinates in [0, 1]), the tilt targets
    and the smoothed tilts applied to the scene stay within 1.5 radians
    of zero. *)
Theorem tilt_stays_in_range (es : list event) :
  Forall event_in_frame es ->
  let s := run initial es in
  -1.5 <= targetTiltX (interaction s) <= 1.5 /\
  -1.5 <= targetTiltY (interaction s) <= 1.5 /\
  -1.5 <= currentTiltX (interaction s) <= 1.5 /\
  -1.5 <= currentTiltY (interaction s) <= 1.5.
Proof.
intros Hes.
assert (H : forall l s, Forall event_in_frame l -> tilt_in_range s ->
                        tilt_in_range (run s l)).
{ induction l as [| e l IH]; intros s Hl Hs; [exact Hs |].
  inversion Hl as [| ? ? He Hl']; subst.
  apply IH; [exact Hl' | apply tilt_in_range_dispatch; assumption]. }
apply H; [exact Hes |].
unfold tilt_in_range. simpl. repeat split; lra.
Qed.

Lemma tilt_stays_in_range_witness :
  -1.5 <= targetTiltY (interaction opened) <= 1.5.
Proof.
apply (tilt_stays_in_range
         [LandmarkerResolved true; StreamResolved true;
          LoadedData (Some 0) 16 (seen (pinchedHand 0.3 0.5 0.5))]).
repeat constructor; simpl; lra.
Defined.

Lemma smooth_iter_limit (target current eps : R) :
  0 < eps ->
  exists N : nat,
    forall n, (N <= n)%nat ->
      Rabs (smooth_iter n target current - target) < eps.
Proof.
intros Heps.
destruct (Req_dec_T current target) as [E | E].
- exists 0%nat. intros n _. rewrite smooth_iter_residual, E.
  rewrite Rminus_diag, Rmult_0_r, Rabs_R0. exact Heps.
- assert (Hg : 0 < Rabs (current - target))
    by (apply Rabs_pos_lt; lra).
  assert (Hq : 0 < eps / Rabs (current - target))
    by (apply Rdiv_lt_0_compat; assumption).
  destruct (pow_lt_1_zero 0.9 ltac:(rewrite Rabs_pos_eq; lra) _ Hq)
    as [N HN].
  exists N. intros n Hn.
  rewrite smooth_iter_residual, Rabs_mult.
  specialize (HN n Hn).
  apply Rmult_lt_compat_r with (r := Rabs (current - target)) in HN;
    [| exact Hg].
  unfold Rdiv in HN. rewrite Rmult_assoc, Rinv_l, Rmult_1_r in HN by lra.
  exact HN.
Qed.

(** X16: with the targets held, the smoothed scale and tilts converge to
    their targets: for every tolerance there is a number of render frames
    after which all three stay within it; and once a smoothed value
    equals its target, render frames leave it there. *)
Theorem smoothing_reaches_any_tolerance (s : Closure) (eps : R) :
  0 < eps ->
  (exists N : nat,
     forall nows, (N <= List.length nows)%nat ->
       let i := interaction s in
       let i' := interaction (run s (renderFrames nows)) in
       Rabs (currentScale i' - targetScale i) < eps /\
       Rabs (currentTiltX i' - targetTiltX i) < eps /\
       Rabs (currentTiltY i' - targetTiltY i) < eps) /\
  (forall nows,
     currents s = targets s ->
     currents (run s (renderFrames nows)) = targets s).
Proof.
intros Heps. split.
- destruct (smooth_iter_limit (targetScale (interaction s))
              (currentScale (interaction s)) eps Heps) as [N1 H1].
  destruct (smooth_iter_limit (targetTiltX (interaction s))
              (currentTiltX (interaction s)) eps Heps) as [N2 H2].
  destruct (smooth_iter_limit (targetTiltY (interaction s))
              (currentTiltY (interaction s)) eps Heps) as [N3 H3].
  exists (Nat.max N1 (Nat.max N2 N3)). intros nows Hn.
  cbv zeta. rewrite renderFrames_interaction. cbv zeta.
  cbn [currentScale currentTiltX currentTiltY].
  repeat split; [apply H1 | apply H2 | apply H3]; lia.
- intros nows Heq. unfold currents, targets in *.
  rewrite renderFrames_interaction. cbv zeta.
  cbn [currentScale currentTiltX currentTiltY].
  injection Heq as Hs Hx Hy.
  assert (Hfix : forall n target, smooth_iter n target target = target).
  { intros n target.
    pose proof (smooth_iter_residual n target target) as Hr.
    rewrite Rminus_diag, Rmult_0_r in Hr. lra. }
  rewrite Hs, Hx, Hy, !Hfix. reflexivity.
Qed.

Lemma smoothing_reaches_any_tolerance_witness :
  exists N : nat,
    forall nows, (N <= List.length nows)%nat ->
      Rabs
        (currentScale (interaction (run opened (renderFrames nows))) -
         targetScale (interaction opened)) < 0.01.
Proof.
destruct (smoothing_reaches_any_tolerance opened 0.01 ltac:(lra))
  as [[N HN] _].
exists N. intros nows Hn. apply (HN nows Hn).
Defined.

Lemma detectLog_dispatch (s : Closure) (e : event) :
  (List.length (detectLog (dispatch s e)) <=
   List.length (detectLog s) + invocations [e])%nat.
Proof.
unfold dispatch.
destruct e as [notNull | | videoMounted | | video now results
              | video now results | now];
  destruct (waiting s) eqn:Hw; cbn [invocations]; try (cbn; lia).
- unfold onLoadedData.
  set (s0 := setStatus SYSTEM_READY (setIsLoading false (set_waiting Nothing s))).
  change (detectLog s) with (detectLog s0).
  destruct (predictWebcam_cases s0 video) as [Hidle | (ct & -> & Hl & Hnew)].
  + destruct (predictWebcam_idle s0 video now results Hidle) as (Hd & _).
    rewrite Hd. lia.
  + destruct (predictWebcam_called s0 ct now results Hl Hnew) as (Hd & _).
    rewrite Hd, length_app. simpl. lia.
- set (s0 := set_waiting Nothing s).
  change (detectLog s) with (detectLog s0).
  destruct (predictWebcam_cases s0 video) as [Hidle | (ct & -> & Hl & Hnew)].
  + destruct (predictWebcam_idle s0 video now results Hidle) as (Hd & _).
    rewrite Hd. lia.
  + destruct (predictWebcam_called s0 ct now results Hl Hnew) as (Hd & _).
    rewrite Hd, length_app. simpl. lia.
Qed.

Lemma invocations_cons (e : event) (es : list event) :
  invocations (e :: es) = (invocations [e] + invocations es)%nat.
Proof. destruct e; reflexivity. Qed.

(** X17: the stored video time is always the one of the latest detector
    call ([-1] while there has been none), and the detector is called at
    most once per invocation of [predictWebcam], the first one, made by
    the "loadeddata" listener, included. *)
Theorem detector_log_tracks_video_time (es : list event) :
  let s := run initial es in
  lastVideoTime s = last (submitted s) (-1) /\
  (List.length (detectLog s) <= invocations es)%nat.
Proof.
intros s. split.
- destruct (run_frames_recorded es initial frames_recorded_initial)
    as [_ H]. symmetry. exact H.
- assert (H : forall l s0,
            (List.length (detectLog (run s0 l)) <=
             List.length (detectLog s0) + invocations l)%nat).
  { induction l as [| e l IH]; intros s0; [simpl; lia |].
    change (run s0 (e :: l)) with (run (dispatch s0 e) l).
    rewrite invocations_cons.
    pose proof (IH (dispatch s0 e)). pose proof (detectLog_dispatch s0 e).
    lia. }
  apply (H es initial).
Qed.

End Bounds.

(** ** The star outline *)

Section Star.
Import Texture.

Lemma on_circle_polar (centerX centerY rad a : R) :
  on_circle centerX centerY rad
    (centerX + cos a * rad, centerY + sin a * rad).
Proof.
unfold on_circle. cbn [fst snd]. pose proof (sin_cos_one a) as H.
replace ((centerX + cos a * rad - centerX) ^ 2 +
         (centerY + sin a * rad - centerY) ^ 2)
  with ((sin a * sin a + cos a * cos a) * rad ^ 2) by ring.
rewrite H. ring.
Qed.

Lemma starLoop_spec (todo : nat) (centerX centerY step : R) :
  forall rot,
    let '(calls, rot') := starLoop todo centerX centerY step rot in
    List.length calls = (2 * todo)%nat /\
    rot' = rot + 2 * INR todo * step /\
    alternating centerX centerY (map endpoint calls) /\
    Forall (fun c => exists x y, c = lineTo x y) calls.
Proof.
induction todo as [| todo IH]; intros rot.
- simpl. repeat split; [lra | constructor].
- cbn [starLoop]. cbv zeta.
  specialize (IH (rot + step + step)).
  destruct (starLoop todo centerX centerY step (rot + step + step))
    as [rest rot'].
  destruct IH as (Hlen & Hrot & Halt & Hall).
  split; [simpl; lia |].
  split; [rewrite Hrot, S_INR; ring |].
  split.
  + cbn [map endpoint alternating].
    split; [apply on_circle_polar |]. split; [apply on_circle_polar |].
    exact Halt.
  + repeat constructor; eauto.
Qed.

(** X18: the star outline starts at the top point, draws ten segments
    whose ends lie in turn on the circle of radius 120 and on the circle
    of radius 60 around the center, the first of them being the top point
    itself, and returns to the top point; the angle has then made one
    full turn. *)
Theorem star_outline (centerX centerY : R) :
  let top := (centerX, centerY - outerRadius) in
  let step := PI / INR spikes in
  exists inner,
    starPath centerX centerY = moveTo (fst top) (snd top) :: inner ++
                               [lineTo (fst top) (snd top)] /\
    List.length inner = 10%nat /\
    Forall (fun c => exists x y, c = lineTo x y) inner /\
    alternating centerX centerY (map endpoint inner) /\
    nth_error (map endpoint inner) 0 = Some top /\
    snd (starLoop spikes centerX centerY step (PI / 2 * 3)) =
    PI / 2 * 3 + 2 * PI /\
    outerRadius = 120 /\ innerRadius = 60.
Proof.
intros top step.
pose proof (starLoop_spec spikes centerX centerY step (PI / 2 * 3)) as H.
unfold starPath. fold step.
destruct (starLoop spikes centerX centerY step (PI / 2 * 3))
  as [inner rot'] eqn:E.
destruct H as (Hlen & Hrot & Halt & Hall).
exists inner. cbn [fst snd].
split; [reflexivity |]. split; [exact Hlen |]. split; [exact Hall |].
split; [exact Halt |]. split.
- unfold spikes in E. cbn [starLoop] in E. cbv zeta in E.
  destruct (starLoop 4 centerX centerY step (PI / 2 * 3 + step + step))
    as [rest r4].
  injection E as <- _. cbn [map endpoint nth_error]. unfold top.
  replace (PI / 2 * 3) with (3 * (PI / 2)) by ring.
  rewrite cos_3PI2, sin_3PI2. apply f_equal. apply f_equal2; ring.
- split; [| unfold outerRadius, innerRadius, radius; split; lra].
  rewrite Hrot. unfold step, spikes.
  replace (INR 5) with 5 by (simpl; lra). field.
Qed.

End Star.

(** ** The pinch distance *)

Section Pinch.
Import Canvas Samples.

Lemma pinchScale_monotone (d1 d2 : R) :
  d1 <= d2 -> pinchScale d1 <= pinchScale d2.
Proof.
intros H. unfold pinchScale, clampDist, Rmax, Rmin.
repeat destruct Rle_dec; lra.
Qed.

(** X9: the scale target depends on the hand only through the distance
    between thumb tip and index fingertip in the image plane: that
    distance is not negative, is the same when the two points are
    swapped, ignores the depth coordinate and the position of the hand in
    the frame; and a wider pinch never gives a smaller scale target. *)
Theorem pinch_scale_geometry (thumb indexFinger thumb' indexFinger' : HandLandmark) :
  0 <= pinchDist thumb indexFinger /\
  pinchDist thumb indexFinger = pinchDist indexFinger thumb /\
  (x thumb' - x indexFinger' = x thumb - x indexFinger ->
   y thumb' - y indexFinger' = y thumb - y indexFinger ->
   pinchDist thumb' indexFinger' = pinchDist thumb indexFinger) /\
  (pinchDist thumb indexFinger <= pinchDist thumb' indexFinger' ->
   pinchScale (pinchDist thumb indexFinger) <=
   pinchScale (pinchDist thumb' indexFinger')).
Proof.
split; [apply sqrt_pos |].
split; [unfold pinchDist; f_equal; ring |].
split; [intros Hx Hy; unfold pinchDist; rewrite Hx, Hy; reflexivity |].
apply pinchScale_monotone.
Qed.

Lemma pinch_scale_geometry_witness :
  pinchDist (mkLandmark 0.2 0.3 5) (mkLandmark 0.3 0.3 (-2)) =
  pinchDist (mkLandmark 0.5 0.5 0) (mkLandmark 0.6 0.5 0).
Proof.
apply (pinch_scale_geometry (mkLandmark 0.5 0.5 0) (mkLandmark 0.6 0.5 0)
         (mkLandmark 0.2 0.3 5) (mkLandmark 0.3 0.3 (-2)));
  simpl; lra.
Defined.

End Pinch.
